(** * A shallow embedding of the RANSAC engine of [ransac.c]

    The development follows the C source function by function:
    [ransac_trial], [random_index], [compare_ints], [are_different],
    [fill_random_indices] and [ransac].

    Conventions of the embedding.
    - A C [int] is a [Z].  The counters of the source ([cx], [safecount],
      the loop indices) are bounded by the sizes of the arrays they walk,
      and an index expression is checked against the bounds of the array
      it addresses; the one place where two arbitrary [int] arguments are
      combined ([random_index]) checks the range explicitly, since signed
      overflow is undefined in C.
    - A C [float] is a [spec_float]; the engine only compares floats
      ([e >= 0], [e < max_error]), which [SFleb] and [SFltb] give with the
      IEEE treatment of NaN and of signed zeros.
    - An array is a [list]; a cell that may hold an indeterminate value
      (fresh [xmalloc] memory, a fresh variable-length array, a buffer of
      the caller) is an [option]: [None] is "indeterminate".
    - A pointer into the data array is the array together with an offset.
    - Whatever stops the program (a failed [assert], a call of [fail],
      undefined behaviour) is an [error]; a function that can stop returns
      a [Res]. *)

From Stdlib Require Import ZArith String.
From Stdlib Require Import Floats.SpecFloat.
From stdpp Require Import base tactics option list sorting.

Local Open Scope Z_scope.

(** ** Outcomes *)

Inductive error : Type :=
  | AssertFailed (cond : string)   (* assert(cond) did not hold: abort() *)
  | Fatal (msg : string)           (* fail(msg) *)
  | DivisionByZero                 (* x % 0 *)
  | IntOverflow                    (* signed arithmetic out of range *)
  | OutOfBounds                    (* access outside an array *)
  | BadArraySize                   (* variable-length array of negative size *)
  | OutOfFuel.                     (* artefact of the embedding, never returned
                                      (see [fill_random_indices_fuel]) *)

Inductive Res (A : Type) : Type :=
  | Ok (a : A)
  | Err (e : error).
Arguments Ok {A} a.
Arguments Err {A} e.

#[global] Instance Res_ret : MRet Res := λ A a, Ok a.
#[global] Instance Res_bind : MBind Res := λ A B f m,
  match m with
  | Ok a => f a
  | Err e => Err e
  end.

Definition assert (b : bool) (cond : string) : Res unit :=
  if b then Ok () else Err (AssertFailed cond).

(** Modelled from the spec: [fail] of [fail.c], which is not among the
    sources.  The specification calls its effect a fatal failure with a
    descriptive error that aborts the operation. *)
Definition fail {A : Type} (msg : string) : Res A := Err (Fatal msg).

(** ** Integers and arrays *)

Definition INT_MIN : Z := - 2 ^ 31.
Definition INT_MAX : Z := 2 ^ 31 - 1.

Definition int_arith (z : Z) : Res Z :=
  if bool_decide (INT_MIN ≤ z ≤ INT_MAX) then Ok z else Err IntOverflow.

(** The arguments [a < b] of [random_index] for which [b - a] and every
    value in between are representable. *)
Definition bounds_ok (a b : Z) : Prop :=
  INT_MIN ≤ a ∧ a < b ∧ b ≤ INT_MAX ∧ b - a ≤ INT_MAX.

(** [l[i]] as an rvalue. *)
Definition load {A : Type} (l : list A) (i : Z) : Res A :=
  if bool_decide (0 ≤ i) then
    match l !! Z.to_nat i with
    | Some a => Ok a
    | None => Err OutOfBounds
    end
  else Err OutOfBounds.

(** [l[i] = a]. *)
Definition store {A : Type} (l : list A) (i : Z) (a : A) : Res (list A) :=
  if bool_decide (0 ≤ i < Z.of_nat (length l)) then Ok (<[Z.to_nat i := a]> l)
  else Err OutOfBounds.

(** A variable-length array [T t[n]] whose cells all hold [a].  A size of
    zero is let through, as compilers do. *)
Definition vla {A : Type} (n : Z) (a : A) : Res (list A) :=
  if bool_decide (0 ≤ n) then Ok (replicate (Z.to_nat n) a)
  else Err BadArraySize.

(** [for (int i = lo; i < hi; i++) body], threading the state [s]. *)
Fixpoint for_iter {S : Type} (k : nat) (i : Z) (body : Z → S → Res S) (s : S)
  : Res S :=
  match k with
  | O => Ok s
  | S k' => s' ← body i s; for_iter k' (i + 1) body s'
  end.

Definition for_loop {S : Type} (lo hi : Z) (body : Z → S → Res S) (s : S)
  : Res S :=
  for_iter (Z.to_nat (hi - lo)) lo body s.

(** [for (int j = 0; j < n; j++) dst[j] = src[j];] *)
Definition copy_cells {A : Type} (n : Z) (src dst : list A) : Res (list A) :=
  for_loop 0 n (λ j dst, v ← load src j; store dst j v) dst.

(** ** Floats *)

Abbreviation float := spec_float.
Definition float_zero : float := S754_zero false.

(** A cell of an array that may not have been written yet. *)
Abbreviation cell A := (option A) (only parsing).

(** The truth value of a [bool] cell, as [if (out_mask[i])] reads it. *)
Definition cell_true (c : cell bool) : bool :=
  match c with
  | Some b => b
  | None => false
  end.

(** The number of [true] cells among the first [n] of a mask. *)
Definition count_true (n : Z) (mask : list (cell bool)) : Z :=
  Z.of_nat (length (filter (λ c, c = Some true) (take (Z.to_nat n) mask))).

(** Every way in which [m] can stop is in [E]. *)
Definition fails_within {A : Type} (m : Res A) (E : error → Prop) : Prop :=
  ∀ e, m = Err e → E e.

(** The ways of stopping that do not come from [random_index] or from the
    fuel of the embedding. *)
Definition ordinary (e : error) : Prop :=
  e ≠ DivisionByZero ∧ e ≠ OutOfFuel.

(** The ways in which the sampler over [[a, b)] can stop: never for want
    of fuel, and on a division by zero only when the range is empty. *)
Definition sampler_errors (a b : Z) (e : error) : Prop :=
  e ≠ OutOfFuel ∧ (e = DivisionByZero → b = a).

(** An output buffer, when there is one, has room for [len] cells. *)
Definition fits {A : Type} (len : Z) (dst : option (list A)) : Prop :=
  match dst with
  | Some buf => len ≤ Z.of_nat (length buf)
  | None => True
  end.

(** The first [len] cells of [dst] overwritten with those of [src]. *)
Definition overwrite {A : Type} (len : Z) (src dst : list A) : list A :=
  take (Z.to_nat len) src ++ drop (Z.to_nat len) dst.

(** ** The sort of the C library *)

(** [compare_ints]: [( *a > *b) - ( *a < *b)]. *)
Definition compare_ints (a b : Z) : Z :=
  Z.b2z (bool_decide (a > b)) - Z.b2z (bool_decide (a < b)).

(** The order a comparison function stands for: [x] may come before [y]. *)
Definition cmp_le (cmp : Z → Z → Z) : relation Z := λ x y, cmp x y ≤ 0.

#[global] Instance cmp_le_dec cmp x y : Decision (cmp_le cmp x y).
Proof. unfold cmp_le. apply _. Defined.

(** [qsort(t, n, sizeof *t, cmp)] sorts the first [n] cells of [t].  The C
    library does not fix the algorithm; on integers ordered by a total
    comparison the outcome does not depend on it. *)
Definition qsort (cmp : Z → Z → Z) (t : list Z) (n : Z) : Res (list Z) :=
  if bool_decide (0 ≤ n ≤ Z.of_nat (length t)) then
    Ok (merge_sort (cmp_le cmp) (take (Z.to_nat n) t) ++ drop (Z.to_nat n) t)
  else Err OutOfBounds.

(** The values of [l] in the order in which [qsort] with [compare_ints]
    leaves them. *)
Definition sort_ints (l : list Z) : list Z := merge_sort (cmp_le compare_ints) l.

(** The state of the generator behind [rand()]. *)
Definition rng : Type := nat.

Definition sizeof_bool : Z := 1.

Section Engine.

(** The caller's decoration [void *usr]. *)
Context {U : Type}.

(** [mev(model, datapoint, usr)]: the data point is the pointer
    [data + off], that is the array and the offset.  The three functions
    of the caller are pure, as the specification requires of them. *)
Variable mev : list (cell float) → list float → Z → U → float.

(** [mgen(out_model, data, usr)] writes the model: it maps the contents
    of the buffer [out_model] before the call and the sample to the
    contents after the call. *)
Variable mgen : list (cell float) → list float → U → list (cell float).

(** [macc], [None] for a null pointer. *)
Variable macc : option (list (cell float) → U → bool).

(** The generator behind [rand()]: the [k]-th call returns [rand k]; the
    state of the generator is the number of calls made so far. *)
Variable rand : nat → Z.

(** [xmalloc] of [xmalloc.c], which is not among the sources: whether a
    request of that many bytes is served; when it is not, the program
    stops inside [xmalloc]. *)
Variable xmalloc_ok : Z → bool.

Definition xmalloc_mask (n : Z) : Res (list (cell bool)) :=
  if xmalloc_ok (n * sizeof_bool) then Ok (replicate (Z.to_nat n) None)
  else fail "xmalloc".

(** *** [ransac_trial] *)

Definition ransac_trial (out_mask : list (cell bool)) (data : list float)
    (model : list (cell float)) (max_error : float) (datadim n : Z) (usr : U)
  : Res (list (cell bool) * Z) :=
  for_loop 0 n (λ i '(out_mask, cx),
    let datai := i * datadim in
    let e := mev model data datai usr in
    _ ← assert (SFleb float_zero e) "e >= 0";
    out_mask ← store out_mask i (Some (SFltb e max_error));
    c ← load out_mask i;
    Ok (out_mask, if cell_true c then cx + 1 else cx)) (out_mask, 0).

(** The error of point [i] under a model, and whether it makes the point
    an inlier. *)
Definition point_error (data : list float) (model : list (cell float))
    (datadim : Z) (usr : U) (i : Z) : float :=
  mev model data (i * datadim) usr.

Definition inlier (data : list float) (model : list (cell float))
    (max_error : float) (datadim : Z) (usr : U) (i : Z) : bool :=
  SFltb (point_error data model datadim usr i) max_error.

(** What holds of the mask and the counter when the loop of
    [ransac_trial] reaches point [i]. *)
Definition scored_upto (data : list float) (model : list (cell float))
    (max_error : float) (datadim : Z) (usr : U)
    (out_mask : list (cell bool)) (i : Z) (s : list (cell bool) * Z) : Prop :=
  length s.1 = length out_mask ∧
  s.2 = count_true i s.1 ∧
  (∀ j, 0 ≤ j < i →
     s.1 !! Z.to_nat j = Some (Some (inlier data model max_error datadim usr j))) ∧
  (∀ j, i ≤ j → s.1 !! Z.to_nat j = out_mask !! Z.to_nat j) ∧
  (∀ j, 0 ≤ j < i →
     SFleb float_zero (point_error data model datadim usr j) = true) ∧
  i ≤ Z.max 0 (Z.of_nat (length out_mask)).

(** *** [random_index] *)

Definition random_index (a b : Z) (g : rng) : Res (Z * rng) :=
  d ← int_arith (b - a);
  if bool_decide (d = 0) then Err DivisionByZero else
  r ← int_arith (a + Z.rem (rand g) d);
  _ ← assert (bool_decide (r >= a)) "r >= a";
  _ ← assert (bool_decide (r < b)) "r < b";
  Ok (r, S g).

(** The values that [n] calls of [random_index(a, b)] draw from the state
    [g] of the generator on. *)
Definition batch_values (a b : Z) (g : rng) (n : nat) : list Z :=
  (λ i, a + Z.rem (rand (g + i)%nat) (b - a)) <$> seq 0 n.

(** What holds when the loop of [draw_batch] reaches cell [i]. *)
Definition drawn_upto (idx : list Z) (a b : Z) (g : rng) (i : Z)
    (s : list Z * rng) : Prop :=
  s.1 = batch_values a b g (Z.to_nat i) ++ drop (Z.to_nat i) idx ∧
  s.2 = (g + Z.to_nat i)%nat ∧
  0 ≤ i ≤ Z.of_nat (length idx) ∧
  Forall (λ r, a ≤ r < b) (batch_values a b g (Z.to_nat i)).

(** The generator returns non-negative values, as [rand()] does. *)
Definition rand_nonneg : Prop := ∀ k, 0 ≤ rand k.

(** *** [are_different] *)

(** The scan [for (i = 1; i < n; i++) if (t[i-1] == t[i]) return false;]
    with [k] iterations left, and the [return true] after it. *)
Fixpoint are_different_scan (k : nat) (i : Z) (t : list Z) : Res bool :=
  match k with
  | O => Ok true
  | S k' =>
      x ← load t (i - 1);
      y ← load t i;
      if bool_decide (x = y) then Ok false
      else are_different_scan k' (i + 1) t
  end.

Definition are_different (t : list Z) (n : Z) : Res (bool * list Z) :=
  t ← qsort compare_ints t n;
  d ← are_different_scan (Z.to_nat (n - 1)) 1 t;
  Ok (d, t).

(** *** [fill_random_indices] *)

(** [for (int i = 0; i < n; i++) idx[i] = random_index(a, b);] *)
Definition draw_batch (idx : list Z) (n a b : Z) (g : rng)
  : Res (list Z * rng) :=
  for_loop 0 n (λ i '(idx, g),
    '(r, g) ← random_index a b g;
    idx ← store idx i r;
    Ok (idx, g)) (idx, g).

(** The [do ... while] loop.  [fuel] bounds the number of times the loop
    goes round again; [safecount] does so in the source, and
    [fill_random_indices_fuel] shows that the fuel given below is never
    used up. *)
Fixpoint redraw (fuel : nat) (safecount : Z) (idx : list Z) (n a b : Z)
    (g : rng) : Res (Z * list Z * rng) :=
  '(idx, g) ← draw_batch idx n a b g;
  let safecount := safecount + 1 in
  if bool_decide (safecount < 10) then
    '(d, idx) ← are_different idx n;
    if negb d then
      match fuel with
      | O => Err OutOfFuel
      | S fuel' => redraw fuel' safecount idx n a b g
      end
    else Ok (safecount, idx, g)
  else Ok (safecount, idx, g).

Definition fill_random_indices (idx : list Z) (n a b : Z) (g : rng)
  : Res (list Z * rng) :=
  '(safecount, idx, g) ← redraw 10 0 idx n a b g;
  if bool_decide (safecount = 10) then fail "could not generate any model"
  else Ok (idx, g).

(** *** [ransac] *)

(** What the caller can see of the memory: the data array, the two output
    buffers ([None] for a null pointer) and the state of [rand()].  The
    three arrays are distinct objects. *)
Record memory : Type := Memory {
  m_data : list float;
  m_out_mask : option (list (cell bool));
  m_out_model : option (list (cell float));
  m_rand : rng
}.

(** A trial that was scored: the model, the mask and the count of
    inliers. *)
Record scored : Type := Scored {
  sc_model : list (cell float);
  sc_mask : list (cell bool);
  sc_count : Z
}.

(** The scored trial, if any, that a candidate adds to the log. *)
Definition log_entry (tmp : list (cell bool))
    (c : option (list (cell float) * Z)) : list scored :=
  match c with
  | Some (model, n_inliers) => [Scored model tmp n_inliers]
  | None => []
  end.

(** The selection of the loop over a list of scored trials: the count and
    the trial kept, replaced by a trial of strictly greater count. *)
Definition select (sel : Z * option scored) (log : list scored)
  : Z * option scored :=
  fold_left (λ sel e,
    if bool_decide (sc_count e > sel.1) then (sc_count e, Some e) else sel)
    log sel.

(** The greatest count among [b] and those of the scored trials. *)
Definition max_from (b : Z) (log : list scored) : Z :=
  fold_left (λ m e, Z.max m (sc_count e)) log b.

(** The earliest scored trial whose count is [c]. *)
Fixpoint find_count (c : Z) (log : list scored) : option scored :=
  match log with
  | [] => None
  | e :: log' =>
      if bool_decide (sc_count e = c) then Some e else find_count c log'
  end.

(** The variables that live across the trials. *)
Record trial_state : Type := TrialState {
  st_rand : rng;
  best_ninliers : Z;
  best_model : list (cell float);
  best_mask : list (cell bool);
  tmp_mask : list (cell bool)
}.

Section Fit.

Variable data : list float.
Variables datadim n modeldim nfit : Z.
Variable max_error : float.
Variable usr : U.

(** [x[datadim*j + k] = data[datadim*indices[j] + k]] for all [j], [k]. *)
Definition gather_sample (indices : list Z) (x : list float)
  : Res (list float) :=
  for_loop 0 nfit (λ j x,
    for_loop 0 datadim (λ k x,
      ij ← load indices j;
      v ← load data (datadim * ij + k);
      store x (datadim * j + k) v) x) x.

(** Cell [k] of point [j] of the sample [x] holds field [k] of the data
    point whose index is [indices[j]]. *)
Definition gathered (indices : list Z) (x : list float) (j k : Z) : Prop :=
  ∃ ij v, indices !! Z.to_nat j = Some ij ∧
    0 ≤ datadim * ij + k ∧
    data !! Z.to_nat (datadim * ij + k) = Some v ∧
    x !! Z.to_nat (datadim * j + k) = Some v.

(** The head of the loop body: the sample of a trial.  The cells of the
    two fresh arrays are indeterminate in C; each is written before it is
    read, the value they are given here is never seen. *)
Definition draw_sample (g : rng) : Res (list Z * list float * rng) :=
  indices ← vla nfit 0;
  '(indices, g) ← fill_random_indices indices nfit 0 n g;
  x ← vla (nfit * datadim) float_zero;
  x ← gather_sample indices x;
  Ok (indices, x, g).

(** [macc && !macc(model, usr)] *)
Definition rejected (model : list (cell float)) : bool :=
  match macc with
  | Some f => negb (f model usr)
  | None => false
  end.

(** The body of the loop over the trials. *)
Definition trial (st : trial_state) : Res trial_state :=
  '(indices, x, g) ← draw_sample (st_rand st);
  model ← vla modeldim None;
  let model := mgen model x usr in
  if rejected model then
    Ok (TrialState g (best_ninliers st) (best_model st) (best_mask st)
          (tmp_mask st))
  else
    '(tmp_mask, n_inliers) ←
      ransac_trial (tmp_mask st) data model max_error datadim n usr;
    if bool_decide (n_inliers > best_ninliers st) then
      best_model ← copy_cells modeldim model (best_model st);
      best_mask ← copy_cells n tmp_mask (best_mask st);
      Ok (TrialState g n_inliers best_model best_mask tmp_mask)
    else
      Ok (TrialState g (best_ninliers st) (best_model st) (best_mask st)
            tmp_mask).

(** The body of the loop in two parts.  First what the trial proposes:
    the state of the generator and the scratch mask it leaves, and the
    model with its count of inliers, or [None] when the model is
    rejected. *)
Definition trial_candidate (g : rng) (tmp : list (cell bool))
  : Res (rng * list (cell bool) * option (list (cell float) * Z)) :=
  '(indices, x, g) ← draw_sample g;
  model ← vla modeldim None;
  let model := mgen model x usr in
  if rejected model then Ok (g, tmp, None)
  else
    '(tmp, n_inliers) ←
      ransac_trial tmp data model max_error datadim n usr;
    Ok (g, tmp, Some (model, n_inliers)).

(** Then the comparison with the best trial so far. *)
Definition trial_update (st : trial_state) (g : rng) (tmp : list (cell bool))
    (c : option (list (cell float) * Z)) : Res trial_state :=
  match c with
  | None =>
      Ok (TrialState g (best_ninliers st) (best_model st) (best_mask st) tmp)
  | Some (model, n_inliers) =>
      if bool_decide (n_inliers > best_ninliers st) then
        best_model ← copy_cells modeldim model (best_model st);
        best_mask ← copy_cells n tmp (best_mask st);
        Ok (TrialState g n_inliers best_model best_mask tmp)
      else
        Ok (TrialState g (best_ninliers st) (best_model st) (best_mask st)
              tmp)
  end.

(** The trials that were scored among [k] trials, in the order in which
    they were run, from the state [g] of the generator and the scratch
    mask [tmp]. *)
Fixpoint scored_trials (k : nat) (g : rng) (tmp : list (cell bool))
  : Res (list scored) :=
  match k with
  | O => Ok []
  | S k' =>
      '(g, tmp, c) ← trial_candidate g tmp;
      rest ← scored_trials k' g tmp;
      Ok (match c with
          | Some (model, n_inliers) => Scored model tmp n_inliers :: rest
          | None => rest
          end)
  end.

(** The best record of [st] holds the model and the mask of the scored
    trial [e]. *)
Definition holds (st : trial_state) (e : scored) : Prop :=
  take (Z.to_nat modeldim) (best_model st) =
    take (Z.to_nat modeldim) (sc_model e) ∧
  take (Z.to_nat n) (best_mask st) = take (Z.to_nat n) (sc_mask e).

(** The best record of [st] is in step with the selection [(b, cur)]
    made among scored trials, [st0] being the state before them. *)
Definition in_step (st0 st : trial_state) (sel : Z * option scored) : Prop :=
  best_ninliers st = sel.1 ∧
  length (best_model st) = length (best_model st0) ∧
  length (best_mask st) = length (best_mask st0) ∧
  match sel.2 with
  | Some e => holds st e
  | None => best_model st = best_model st0 ∧ best_mask st = best_mask st0
  end.

(** The scored trial [e] is what some trial produced: its model was
    generated from a sample that the sampler drew, was not rejected, and
    was scored to its mask and its count. *)
Definition scored_sound (e : scored) : Prop :=
  ∃ g tmp indices x g',
    draw_sample g = Ok (indices, x, g') ∧
    sc_model e = mgen (replicate (Z.to_nat modeldim) None) x usr ∧
    rejected (sc_model e) = false ∧
    ransac_trial tmp data (sc_model e) max_error datadim n usr =
    Ok (sc_mask e, sc_count e).

(** The three buffers that live across the trials have the sizes they
    were given. *)
Definition sized (st : trial_state) : Prop :=
  length (best_model st) = Z.to_nat modeldim ∧
  length (best_mask st) = Z.to_nat n ∧
  length (tmp_mask st) = Z.to_nat n.

(** The sizes the search is called with agree with each other: no
    negative dimension, at least one data point and no more than an [int]
    counts, and a data array that holds [n] points of [datadim] fields. *)
Definition sizes_ok : Prop :=
  0 ≤ modeldim ∧ 0 ≤ nfit ∧ 0 ≤ datadim ∧ 1 ≤ n ≤ INT_MAX ∧
  n * datadim ≤ Z.of_nat (length data).

(** [mgen] writes into the buffer it is given and leaves its size alone. *)
Definition mgen_sized : Prop :=
  ∀ buf x, length (mgen buf x usr) = length buf.

(** The state in which the loop is entered. *)
Definition ransac_init (g : rng) : Res trial_state :=
  let best_ninliers := 0 in
  best_model ← vla modeldim None;
  best_mask ← xmalloc_mask n;
  tmp_mask ← xmalloc_mask n;
  Ok (TrialState g best_ninliers best_model best_mask tmp_mask).

(** The state after [k] trials, from the state [st]. *)
Definition run_trials (k : nat) (st : trial_state) : Res trial_state :=
  for_iter k 0 (λ _ st, trial st) st.

(** [if (dst) for (j = 0; j < len; j++) dst[j] = src[j];] *)
Definition copy_out {A : Type} (len : Z) (src : list A)
    (dst : option (list A)) : Res (option (list A)) :=
  match dst with
  | None => Ok None
  | Some buf => buf ← copy_cells len src buf; Ok (Some buf)
  end.

End Fit.

(** The tail of [ransac], after the loop. *)
Definition ransac_finish (n modeldim min_inliers : Z) (m : memory)
    (st : trial_state) : Res (Z * memory) :=
  if bool_decide (best_ninliers st >= min_inliers) then
    out_model ← copy_out modeldim (best_model st) (m_out_model m);
    out_mask ← copy_out n (best_mask st) (m_out_mask m);
    Ok (best_ninliers st, Memory (m_data m) out_mask out_model (st_rand st))
  else
    Ok (0, Memory (m_data m) (m_out_mask m) (m_out_model m) (st_rand st)).

(** [ransac]; the pointers [out_mask], [out_model] and [data] are the
    fields of [m]. *)
Definition ransac (m : memory) (datadim n modeldim nfit ntrials
    min_inliers : Z) (max_error : float) (usr : U) : Res (Z * memory) :=
  st ← ransac_init n modeldim (m_rand m);
  st ← for_loop 0 ntrials
         (λ _ st, trial (m_data m) datadim n modeldim nfit max_error usr st)
         st;
  ransac_finish n modeldim min_inliers m st.


(** The sampler in the words of its outcome: the first of the given
    number of batches of [n] draws that is pairwise distinct, sorted, with
    the state of the generator after it; [None] when none of them is. *)
Fixpoint first_distinct_batch (attempts : nat) (n : nat) (a b : Z) (g : rng)
  : option (list Z * rng) :=
  match attempts with
  | O => None
  | S k =>
      let drawn := batch_values a b g n in
      if bool_decide (NoDup drawn) then Some (sort_ints drawn, (g + n)%nat)
      else first_distinct_batch k n a b (g + n)%nat
  end.

End Engine.

(** ** A small instance

    One-dimensional data; the model is the sampled point and the error of
    a point is the stored value itself. *)

Definition ex_f1 : float := S754_finite false 1 0.
Definition ex_f2 : float := S754_finite false 1 1.
Definition ex_f4 : float := S754_finite false 1 2.
Definition ex_neg1 : float := S754_finite true 1 0.

Definition ex_data : list float := [ex_f1; ex_f2; ex_f4; ex_f1].
Definition ex_data_neg : list float := [ex_f1; ex_f2; ex_neg1; ex_f1].

Definition ex_mev (model : list (cell float)) (data : list float) (off : Z)
    (usr : unit) : float :=
  match data !! Z.to_nat off with
  | Some v => v
  | None => S754_nan
  end.

Definition ex_mgen (model : list (cell float)) (x : list float) (usr : unit)
  : list (cell float) :=
  take (length model) (map Some x ++ replicate (length model) None).

(** A generator whose first eighteen values are [0] and which counts up
    from [0] afterwards, and the generator that counts up from [0]. *)
Definition ex_rand_late (k : nat) : Z :=
  if bool_decide (k < 18)%nat then 0 else Z.of_nat k - 18.

Definition ex_rand_id (k : nat) : Z := Z.of_nat k.

(** A generator that counts down from [7]. *)
Definition ex_rand_down (k : nat) : Z := 7 - Z.of_nat k.

(** An allocator that serves every request, a predicate that rejects every
    model, and the memory of a caller with room for four mask entries and
    one model parameter. *)
Definition ex_xmalloc_ok (size : Z) : bool := true.

Definition ex_reject_all (model : list (cell float)) (usr : unit) : bool :=
  false.

Definition ex_memory : memory :=
  Memory ex_data (Some [None; None; None; None]) (Some [None]) 0%nat.

(** The state in which the loop is entered for that memory, and the state
    after three trials with one-dimensional points and models, samples of
    two points, the threshold [2] and the generator that counts up. *)
Definition ex_st0 : trial_state :=
  TrialState 0%nat 0 [None] [None; None; None; None] [None; None; None; None].

(** The ways in which a search with consistent sizes stops: the sampler
    gave up, or an error failed [e >= 0]. *)
Definition ransac_stop (e : error) : Prop :=
  e = Fatal "could not generate any model" ∨ e = AssertFailed "e >= 0".

Definition ex_st3 : trial_state :=
  TrialState 6%nat 2 [Some ex_f1]
    [Some true; Some false; Some false; Some true]
    [Some true; Some false; Some false; Some true].

(** The memory of a caller whose output buffers hold values already. *)
Definition ex_memory_full : memory :=
  Memory ex_data (Some [Some true; Some true; Some true; Some true])
    (Some [Some ex_f4]) 0%nat.

(** * Properties *)

(** ** The monad of outcomes *)

Lemma bind_Ok {A B : Type} (a : A) (f : A → Res B) : (Ok a ≫= f) = f a.
Proof. reflexivity. Qed.

Lemma bind_Err {A B : Type} (e : error) (f : A → Res B) :
  (Err e ≫= f) = Err e.
Proof. reflexivity. Qed.

Lemma bind_Ok_inv {A B : Type} (m : Res A) (f : A → Res B) (b : B) :
  (m ≫= f) = Ok b → ∃ a, m = Ok a ∧ f a = Ok b.
Proof. destruct m as [a|e]; [eauto | discriminate]. Qed.

Lemma assert_Ok_inv (b : bool) (cond : string) (u : unit) :
  assert b cond = Ok u → b = true.
Proof. destruct b; [reflexivity | discriminate]. Qed.

(** Break up a hypothesis [H : (x ← m; k) = Ok r]. *)
Ltac res_inv H :=
  let a := fresh "a" in
  let Ha := fresh "Ha" in
  apply bind_Ok_inv in H as (a & Ha & H).

(** ** Loads and stores *)

Section Arrays.

Context {A : Type}.
Implicit Types (l : list A) (i : Z) (a : A).

Lemma load_Ok l i a :
  load l i = Ok a ↔ 0 ≤ i ∧ l !! Z.to_nat i = Some a.
Proof.
  unfold load. case_bool_decide; [|split; [discriminate | lia]].
  destruct (l !! Z.to_nat i); split; intros; simplify_eq; intuition congruence.
Qed.

Lemma load_in_range l i :
  0 ≤ i < Z.of_nat (length l) → ∃ a, load l i = Ok a.
Proof.
  intros Hi. destruct (lookup_lt_is_Some_2 l (Z.to_nat i)) as [a Ha]; [lia|].
  exists a. apply load_Ok. split; [lia | exact Ha].
Qed.

Lemma store_Ok l i a l' :
  store l i a = Ok l' ↔
  0 ≤ i < Z.of_nat (length l) ∧ l' = <[Z.to_nat i := a]> l.
Proof.
  unfold store. case_bool_decide; split; intros; simplify_eq;
    intuition congruence.
Qed.

Lemma store_in_range l i a :
  0 ≤ i < Z.of_nat (length l) → store l i a = Ok (<[Z.to_nat i := a]> l).
Proof. intros. apply store_Ok. auto. Qed.

Lemma vla_Ok (n : Z) a :
  0 ≤ n → vla n a = Ok (replicate (Z.to_nat n) a).
Proof. intros. unfold vla. by rewrite bool_decide_eq_true_2. Qed.

Lemma load_store l i a :
  0 ≤ i < Z.of_nat (length l) → load (<[Z.to_nat i := a]> l) i = Ok a.
Proof.
  intros. apply load_Ok. split; [lia|]. apply list_lookup_insert_eq. lia.
Qed.

(** Writing cell [k] after a prefix of [k] cells. *)
Lemma batch_store (dst l : list A) (r : A) (k : nat) :
  length l = k → (k < length dst)%nat →
  <[k := r]> (l ++ drop k dst) = (l ++ [r]) ++ drop (S k) dst.
Proof.
  intros <- Hlen.
  destruct (lookup_lt_is_Some_2 dst (length l) Hlen) as [x Hx].
  rewrite (drop_S _ _ _ Hx).
  rewrite insert_app_r_alt by lia. rewrite Nat.sub_diag. simpl.
  by rewrite <- app_assoc.
Qed.

Lemma overwrite_length (len : Z) (src dst : list A) :
  len ≤ Z.of_nat (length src) → len ≤ Z.of_nat (length dst) →
  length (overwrite len src dst) = length dst.
Proof.
  intros. unfold overwrite. rewrite length_app, length_take, length_drop. lia.
Qed.

Lemma overwrite_take (len : Z) (src dst : list A) :
  len ≤ Z.of_nat (length src) →
  take (Z.to_nat len) (overwrite len src dst) = take (Z.to_nat len) src.
Proof.
  intros. unfold overwrite. rewrite take_app_length'; [done|].
  rewrite length_take. lia.
Qed.

End Arrays.

(** ** Loops *)

Section Loops.

Context {St : Type}.
Implicit Types (body : Z → St → Res St) (s : St).

(** An invariant carried through a loop that ends. *)
Lemma for_iter_inv (P : Z → St → Prop) k i body s r :
  P i s →
  (∀ j s s', i ≤ j < i + Z.of_nat k → P j s → body j s = Ok s' → P (j + 1) s') →
  for_iter k i body s = Ok r →
  P (i + Z.of_nat k) r.
Proof.
  revert i s. induction k as [|k IH]; intros i s HP Hstep Hrun; simpl in Hrun.
  - simplify_eq. by replace (i + Z.of_nat 0) with i by lia.
  - res_inv Hrun.
    replace (i + Z.of_nat (S k)) with ((i + 1) + Z.of_nat k) by lia.
    apply (IH (i + 1) a); [| |exact Hrun].
    + apply (Hstep i s); [lia|done..].
    + intros j s1 s2 Hj. apply Hstep. lia.
Qed.

(** A loop whose body always ends under the invariant ends. *)
Lemma for_iter_total (P : Z → St → Prop) k i body s :
  P i s →
  (∀ j s, i ≤ j < i + Z.of_nat k → P j s →
     ∃ s', body j s = Ok s' ∧ P (j + 1) s') →
  ∃ r, for_iter k i body s = Ok r ∧ P (i + Z.of_nat k) r.
Proof.
  revert i s. induction k as [|k IH]; intros i s HP Hstep; simpl.
  - exists s. split; [done|]. by replace (i + Z.of_nat 0) with i by lia.
  - destruct (Hstep i s) as (s' & -> & HP'); [lia|done|].
    rewrite bind_Ok.
    replace (i + Z.of_nat (S k)) with ((i + 1) + Z.of_nat k) by lia.
    apply IH; [done|]. intros j s1 Hj. apply Hstep. lia.
Qed.

(** A loop in which some round is bound to stop with [e], and every round
    before it either does the same or carries on, stops with [e]. *)
Lemma for_iter_stops (P : Z → St → Prop) (bad : Z → Prop) k i body s e :
  P i s →
  (∃ j, i ≤ j < i + Z.of_nat k ∧ bad j) →
  (∀ j s, i ≤ j < i + Z.of_nat k → P j s →
     body j s = Err e ∨
     (¬ bad j ∧ ∃ s', body j s = Ok s' ∧ P (j + 1) s')) →
  for_iter k i body s = Err e.
Proof.
  revert i s. induction k as [|k IH]; intros i s HP (j & Hj & Hbad) Hstep.
  { lia. }
  simpl. destruct (Hstep i s) as [->|(Hgood & s' & -> & HP')]; [lia|done|done|].
  rewrite bind_Ok. apply IH; [done| |].
  - exists j. split; [|done]. destruct (decide (j = i)) as [->|]; [done|lia].
  - intros j' s1 Hj'. apply Hstep. lia.
Qed.

(** A loop that stops does so in one of its rounds. *)
Lemma for_iter_Err_inv (P : Z → St → Prop) k i body s e :
  P i s →
  (∀ j s s', i ≤ j < i + Z.of_nat k → P j s → body j s = Ok s' → P (j + 1) s') →
  for_iter k i body s = Err e →
  ∃ j s', i ≤ j < i + Z.of_nat k ∧ P j s' ∧ body j s' = Err e.
Proof.
  revert i s. induction k as [|k IH]; intros i s HP Hstep Hrun; [done|].
  simpl in Hrun. destruct (body i s) as [s'|e'] eqn:Hbody.
  - rewrite bind_Ok in Hrun.
    destruct (IH (i + 1) s') as (j & s1 & Hj & HP1 & Hj1); [| |done|].
    + by apply (Hstep i s); [lia|..].
    + intros j s1 s2 Hj. apply Hstep. lia.
    + exists j, s1. split; [lia|done].
  - simpl in Hrun. simplify_eq. exists i, s. split; [lia|done].
Qed.

(** The last round of a loop. *)
Lemma for_iter_snoc k i body s :
  for_iter (S k) i body s =
  (s' ← for_iter k i body s; body (i + Z.of_nat k) s').
Proof.
  revert i s. induction k as [|k IH]; intros i s.
  - simpl. replace (i + Z.of_nat 0) with i by lia. by destruct (body i s).
  - change (for_iter (S (S k)) i body s)
      with (s' ← body i s; for_iter (S k) (i + 1) body s').
    change (for_iter (S k) i body s)
      with (s' ← body i s; for_iter k (i + 1) body s').
    destruct (body i s) as [s1|e]; [|done]. rewrite !bind_Ok, IH.
    by replace (i + 1 + Z.of_nat k) with (i + Z.of_nat (S k)) by lia.
Qed.

(** A loop whose body does not look at the index. *)
Lemma for_iter_shift k i j (f : St → Res St) s :
  for_iter k i (λ _, f) s = for_iter k j (λ _, f) s.
Proof.
  revert i j s. induction k as [|k IH]; intros i j s; [done|].
  simpl. destruct (f s); [|done]. rewrite !bind_Ok. apply IH.
Qed.

Lemma for_loop_empty lo hi body s : hi ≤ lo → for_loop lo hi body s = Ok s.
Proof. intros. unfold for_loop. by replace (Z.to_nat (hi - lo)) with O by lia. Qed.

End Loops.

(** ** Copies *)

Section Copies.

Context {A : Type}.
Implicit Types (src dst : list A).

Lemma copy_cells_step src dst i v :
  0 ≤ i < Z.of_nat (length dst) → src !! Z.to_nat i = Some v →
  <[Z.to_nat i := v]> (overwrite i src dst) = overwrite (i + 1) src dst.
Proof.
  intros Hi Hv. unfold overwrite.
  replace (Z.to_nat (i + 1)) with (S (Z.to_nat i)) by lia.
  rewrite (take_S_r _ _ _ Hv). apply batch_store; [|lia].
  apply lookup_lt_Some in Hv. rewrite length_take. lia.
Qed.

Lemma copy_cells_Ok_inv len src dst dst' :
  copy_cells len src dst = Ok dst' →
  dst' = overwrite len src dst ∧
  len ≤ Z.of_nat (length src) ∧ len ≤ Z.of_nat (length dst).
Proof.
  unfold copy_cells, for_loop. intros Hrun.
  apply (for_iter_inv (λ i d,
           0 ≤ i ≤ Z.max 0 len ∧ d = overwrite i src dst ∧
           i ≤ Z.of_nat (length src) ∧ i ≤ Z.of_nat (length dst)))
    in Hrun.
  - destruct Hrun as (Hi & -> & Hsrc & Hdst).
    replace (0 + Z.of_nat (Z.to_nat (len - 0))) with (Z.max 0 len) in * by lia.
    split; [|lia]. unfold overwrite. by replace (Z.to_nat (Z.max 0 len))
      with (Z.to_nat len) by lia.
  - split; [lia|]. split; [done|]. lia.
  - intros j d d' Hj (Hj' & -> & Hsrc & Hdst) Hbody. res_inv Hbody.
    apply load_Ok in Ha as [_ Hv]. apply store_Ok in Hbody as [Hrange ->].
    rewrite overwrite_length in Hrange by lia.
    pose proof (lookup_lt_Some _ _ _ Hv).
    split; [lia|]. split; [|lia]. by apply copy_cells_step.
Qed.

Lemma copy_cells_total len src dst :
  len ≤ Z.of_nat (length src) → len ≤ Z.of_nat (length dst) →
  copy_cells len src dst = Ok (overwrite len src dst).
Proof.
  intros Hsrc Hdst. unfold copy_cells, for_loop.
  destruct (for_iter_total (λ i d, 0 ≤ i ∧ d = overwrite i src dst)
              (Z.to_nat (len - 0)) 0
              (λ j dst, v ← load src j; store dst j v) dst)
    as (d & -> & _ & ->).
  - done.
  - intros j d Hj [_ ->].
    destruct (load_in_range src j) as [v Hv]; [lia|]. rewrite Hv, bind_Ok.
    apply load_Ok in Hv as [_ Hv].
    rewrite store_in_range by (rewrite overwrite_length; lia).
    eexists. split; [done|]. split; [lia|]. apply copy_cells_step; [lia|done].
  - f_equal. unfold overwrite.
    by replace (Z.to_nat (0 + Z.of_nat (Z.to_nat (len - 0))))
      with (Z.to_nat len) by lia.
Qed.

Lemma copy_out_total len src (dst : option (list A)) :
  len ≤ Z.of_nat (length src) → fits len dst →
  copy_out len src dst = Ok (overwrite len src <$> dst).
Proof.
  intros Hsrc Hdst. destruct dst as [buf|]; [|done]. simpl in *.
  by rewrite copy_cells_total.
Qed.

Lemma copy_out_Ok_inv len src (dst dst' : option (list A)) :
  copy_out len src dst = Ok dst' →
  dst' = overwrite len src <$> dst ∧ fits len dst.
Proof.
  destruct dst as [buf|]; simpl; intros Hrun; [|by simplify_eq].
  res_inv Hrun. apply copy_cells_Ok_inv in Ha as (-> & _ & ?).
  by simplify_eq.
Qed.

End Copies.

(** ** The ways of stopping *)

Lemma fails_within_Ok {A : Type} (a : A) (E : error → Prop) :
  fails_within (Ok a) E.
Proof. intros e He. discriminate. Qed.

Lemma fails_within_Err {A : Type} (e : error) (E : error → Prop) :
  E e → fails_within (@Err A e) E.
Proof. intros He e' [= <-]. done. Qed.

Lemma fails_within_bind {A B : Type} (m : Res A) (f : A → Res B)
    (E : error → Prop) :
  fails_within m E → (∀ a, m = Ok a → fails_within (f a) E) →
  fails_within (m ≫= f) E.
Proof.
  intros Hm Hf e. destruct m as [a|e']; simpl.
  - by apply Hf.
  - intros [= <-]. by apply Hm.
Qed.

Lemma fails_within_weaken {A : Type} (m : Res A) (E E' : error → Prop) :
  (∀ e, E e → E' e) → fails_within m E → fails_within m E'.
Proof. intros HE Hm e He. by apply HE, Hm. Qed.

Lemma fails_within_for_iter {St : Type} (k : nat) (i : Z)
    (body : Z → St → Res St) (s : St) (E : error → Prop) :
  (∀ j s, fails_within (body j s) E) → fails_within (for_iter k i body s) E.
Proof.
  intros Hbody. revert i s. induction k as [|k IH]; intros i s; simpl.
  - apply fails_within_Ok.
  - apply fails_within_bind; [apply Hbody | intros; apply IH].
Qed.

Lemma fails_within_for_loop {St : Type} (lo hi : Z)
    (body : Z → St → Res St) (s : St) (E : error → Prop) :
  (∀ j s, fails_within (body j s) E) → fails_within (for_loop lo hi body s) E.
Proof. apply fails_within_for_iter. Qed.

Lemma ordinary_sampler_errors (a b : Z) (e : error) :
  ordinary e → sampler_errors a b e.
Proof. intros [? ?]. by split. Qed.

Lemma load_ordinary {A : Type} (l : list A) (i : Z) :
  fails_within (load l i) ordinary.
Proof.
  unfold load. intros e. case_bool_decide; [destruct (l !! _)|];
    intros; simplify_eq; by split.
Qed.

Lemma store_ordinary {A : Type} (l : list A) (i : Z) (a : A) :
  fails_within (store l i a) ordinary.
Proof. unfold store. intros e. case_bool_decide; intros; simplify_eq; by split. Qed.

Lemma vla_ordinary {A : Type} (n : Z) (a : A) : fails_within (vla n a) ordinary.
Proof. unfold vla. intros e. case_bool_decide; intros; simplify_eq; by split. Qed.

Lemma assert_ordinary (b : bool) (cond : string) :
  fails_within (assert b cond) ordinary.
Proof. unfold assert. destruct b; intros e He; simplify_eq; by split. Qed.

Lemma int_arith_ordinary (z : Z) : fails_within (int_arith z) ordinary.
Proof.
  unfold int_arith. intros e. case_bool_decide; intros; simplify_eq; by split.
Qed.

Lemma fail_ordinary {A : Type} (msg : string) :
  fails_within (@fail A msg) ordinary.
Proof. intros e [= <-]. by split. Qed.

(** The ways of stopping of the primitive operations. *)
Ltac fails_prim :=
  match goal with
  | |- fails_within (Ok _) _ => apply fails_within_Ok
  | |- fails_within (load _ _) ordinary => apply load_ordinary
  | |- fails_within (store _ _ _) ordinary => apply store_ordinary
  | |- fails_within (vla _ _) ordinary => apply vla_ordinary
  | |- fails_within (assert _ _) ordinary => apply assert_ordinary
  | |- fails_within (int_arith _) ordinary => apply int_arith_ordinary
  | |- fails_within (fail _) ordinary => apply fail_ordinary
  end.

(** One step of the argument that a computation stops in [E] only. *)
Ltac fails_step :=
  match goal with
  | |- fails_within (_ ≫= _) _ => apply fails_within_bind; [|intros ? _]
  | |- fails_within (for_loop _ _ _ _) _ => apply fails_within_for_loop; intros
  | |- fails_within (let '(_, _) := ?p in _) _ => destruct p
  | |- fails_within (if ?b then _ else _) _ => destruct b
  | |- fails_within _ ordinary => fails_prim
  | |- fails_within _ (sampler_errors _ _) =>
      apply (fails_within_weaken _ ordinary);
        [apply ordinary_sampler_errors | fails_prim]
  end.

Lemma copy_cells_ordinary {A : Type} (len : Z) (src dst : list A) :
  fails_within (copy_cells len src dst) ordinary.
Proof. unfold copy_cells. repeat fails_step. Qed.

Lemma copy_out_ordinary {A : Type} (len : Z) (src : list A)
    (dst : option (list A)) :
  fails_within (copy_out len src dst) ordinary.
Proof.
  destruct dst; simpl; [|apply fails_within_Ok].
  fails_step; [apply copy_cells_ordinary | fails_step].
Qed.

(** ** Counting the inliers of a mask *)

Lemma count_true_nonpos (n : Z) (mask : list (cell bool)) :
  n ≤ 0 → count_true n mask = 0.
Proof. intros. unfold count_true. by replace (Z.to_nat n) with O by lia. Qed.

Lemma count_true_store (i : Z) (mask : list (cell bool)) (b : bool) :
  0 ≤ i < Z.of_nat (length mask) →
  count_true (i + 1) (<[Z.to_nat i := Some b]> mask) =
  if b then count_true i mask + 1 else count_true i mask.
Proof.
  intros Hi. unfold count_true.
  replace (Z.to_nat (i + 1)) with (S (Z.to_nat i)) by lia.
  rewrite (take_S_r _ _ (Some b)) by (apply list_lookup_insert_eq; lia).
  rewrite take_insert_ge by lia. rewrite filter_app, length_app.
  destruct b.
  - rewrite (filter_cons_True (λ c, c = Some true)) by done. simpl. lia.
  - rewrite (filter_cons_False (λ c, c = Some true)) by done. simpl. lia.
Qed.

Lemma count_true_bounds (n : Z) (mask : list (cell bool)) :
  0 ≤ count_true n mask ≤ Z.max 0 n.
Proof.
  unfold count_true.
  pose proof (length_filter (λ c, c = Some true) (take (Z.to_nat n) mask)).
  rewrite length_take in *. lia.
Qed.

(** ** Comparisons of floats *)

Lemma SFltb_zero_not_SFleb (e : float) :
  SFltb e float_zero = true → SFleb float_zero e = false.
Proof. by destruct e as [s|[]| |[] m x]. Qed.

Lemma SFeqb_not_SFltb (e t : float) : SFeqb e t = true → SFltb e t = false.
Proof.
  unfold SFeqb, SFltb. by destruct (SFcompare e t) as [[]|].
Qed.

(** ** The trial evaluator *)

Section TrialEvaluator.

Context {U : Type}.
Variable mev : list (cell float) → list float → Z → U → float.
Variable data : list float.
Variable model : list (cell float).
Variable max_error : float.
Variable datadim : Z.
Variable usr : U.

Local Abbreviation point_error := (point_error mev data model datadim usr).
Local Abbreviation inlier := (inlier mev data model max_error datadim usr).
Local Abbreviation scored_upto :=
  (scored_upto mev data model max_error datadim usr).

Lemma scored_upto_start out_mask : scored_upto out_mask 0 (out_mask, 0).
Proof.
  split; [done|]. split; [by rewrite count_true_nonpos|].
  split; [intros; lia|]. split; [done|]. split; [intros; lia | simpl; lia].
Qed.

Lemma scored_upto_step out_mask i mask cx :
  0 ≤ i < Z.of_nat (length out_mask) →
  SFleb float_zero (point_error i) = true →
  scored_upto out_mask i (mask, cx) →
  scored_upto out_mask (i + 1)
    (<[Z.to_nat i := Some (inlier i)]> mask,
     if inlier i then cx + 1 else cx).
Proof.
  intros Hi He (Hlen & Hcx & Hlow & Hhigh & Hpos & _). simpl in *.
  split; [|split; [|split; [|split; [|split]]]]; simpl.
  - by rewrite length_insert.
  - rewrite count_true_store by lia. by rewrite Hcx.
  - intros j Hj. destruct (decide (j = i)) as [->|Hne].
    + apply list_lookup_insert_eq. lia.
    + rewrite list_lookup_insert_ne by lia. apply Hlow. lia.
  - intros j Hj. rewrite list_lookup_insert_ne by lia. apply Hhigh. lia.
  - intros j Hj. destruct (decide (j = i)) as [->|Hne]; [done|].
    apply Hpos. lia.
  - lia.
Qed.

(** One round of the loop of [ransac_trial]. *)
Lemma ransac_trial_body i mask cx :
  0 ≤ i < Z.of_nat (length mask) →
  (_ ← assert (SFleb float_zero (point_error i)) "e >= 0";
   out_mask ← store mask i (Some (inlier i));
   c ← load out_mask i;
   Ok (out_mask, if cell_true c then cx + 1 else cx)) =
  if SFleb float_zero (point_error i)
  then Ok (<[Z.to_nat i := Some (inlier i)]> mask,
           if inlier i then cx + 1 else cx)
  else Err (AssertFailed "e >= 0").
Proof.
  intros Hi. destruct (SFleb float_zero (point_error i)); [|done].
  simpl. rewrite store_in_range by done. rewrite bind_Ok.
  rewrite load_store by done. by rewrite bind_Ok.
Qed.

Lemma ransac_trial_scored out_mask n mask cx :
  ransac_trial mev out_mask data model max_error datadim n usr = Ok (mask, cx) →
  scored_upto out_mask (Z.max 0 n) (mask, cx).
Proof.
  unfold ransac_trial, for_loop. intros Hrun.
  replace (Z.max 0 n) with (0 + Z.of_nat (Z.to_nat (n - 0))) by lia.
  eapply (for_iter_inv
            (λ i s, 0 ≤ i ≤ Z.max 0 n ∧ scored_upto out_mask i s));
    [| |exact Hrun].
  - split; [lia|]. apply scored_upto_start.
  - intros j [m c] [m' c'] Hj [Hj' Hinv] Hbody. split; [lia|].
    simpl in Hbody. res_inv Hbody. res_inv Hbody.
    apply assert_Ok_inv in Ha. apply store_Ok in Ha0 as [Hrange ->].
    destruct Hinv as (Hlen & ?). simpl in Hlen.
    fold (point_error j) in *. fold (inlier j) in *.
    rewrite load_store in Hbody by done. rewrite bind_Ok in Hbody.
    injection Hbody as <- <-.
    apply scored_upto_step; [lia|done|]. by split.
Qed.

(** Under its preconditions [ransac_trial] returns. *)
Lemma ransac_trial_total out_mask n :
  n ≤ Z.of_nat (length out_mask) →
  (∀ i, 0 ≤ i < n → SFleb float_zero (point_error i) = true) →
  ∃ mask cx,
    ransac_trial mev out_mask data model max_error datadim n usr = Ok (mask, cx).
Proof.
  intros Hlen Hpos. unfold ransac_trial, for_loop.
  destruct (for_iter_total
              (λ i (s : list (cell bool) * Z), length s.1 = length out_mask)
              (Z.to_nat (n - 0)) 0
              (λ i '(out_mask, cx),
                 let datai := i * datadim in
                 let e := mev model data datai usr in
                 _ ← assert (SFleb float_zero e) "e >= 0";
                 out_mask ← store out_mask i (Some (SFltb e max_error));
                 c ← load out_mask i;
                 Ok (out_mask, if cell_true c then cx + 1 else cx))
              (out_mask, 0)) as ([mask cx] & Hrun & _); [done| |by eauto].
  intros j [m c] Hj Hm. simpl in Hm.
  eexists. split.
  - cbv zeta. fold (point_error j). fold (inlier j).
    rewrite ransac_trial_body by lia. by rewrite Hpos by lia.
  - simpl. by rewrite length_insert.
Qed.

(** With room in the mask, a point whose error fails [e >= 0] stops the
    evaluation at the assertion. *)
Lemma ransac_trial_stops out_mask n :
  n ≤ Z.of_nat (length out_mask) →
  (∃ i, 0 ≤ i < n ∧ SFleb float_zero (point_error i) = false) →
  ransac_trial mev out_mask data model max_error datadim n usr =
  Err (AssertFailed "e >= 0").
Proof.
  intros Hlen (i & Hi & Hneg). unfold ransac_trial, for_loop.
  apply (for_iter_stops
           (λ i (s : list (cell bool) * Z), length s.1 = length out_mask)
           (λ i, SFleb float_zero (point_error i) = false)); [done| |].
  - exists i. split; [lia|done].
  - intros j [m c] Hj Hm. simpl in Hm. cbv zeta.
    fold (point_error j). fold (inlier j).
    rewrite ransac_trial_body by lia.
    destruct (SFleb float_zero (point_error j)); [right|by left].
    split; [done|]. eexists. split; [done|]. simpl. by rewrite length_insert.
Qed.

(** The assertion fails only at a point whose error fails [e >= 0]. *)
Lemma ransac_trial_AssertFailed_inv out_mask n cond :
  ransac_trial mev out_mask data model max_error datadim n usr =
  Err (AssertFailed cond) →
  ∃ i, 0 ≤ i < n ∧ SFleb float_zero (point_error i) = false.
Proof.
  unfold ransac_trial, for_loop. intros Hrun.
  apply (for_iter_Err_inv (λ _ _, True)) in Hrun
    as (j & [m c] & Hj & _ & Hbody); [|done..].
  exists j. split; [lia|]. cbv zeta in Hbody.
  fold (point_error j) in Hbody.
  destruct (SFleb float_zero (point_error j)); [|done].
  simpl in Hbody. unfold store in Hbody. case_bool_decide; [|done].
  rewrite bind_Ok in Hbody. rewrite load_store in Hbody by done. done.
Qed.

End TrialEvaluator.

(** ** Sorting with [compare_ints] *)

Lemma compare_ints_le (x y : Z) : cmp_le compare_ints x y ↔ x ≤ y.
Proof.
  unfold cmp_le, compare_ints. repeat case_bool_decide; simpl; lia.
Qed.

#[global] Instance cmp_le_compare_ints_total : Total (cmp_le compare_ints).
Proof. intros x y. rewrite !compare_ints_le. lia. Qed.

Lemma Sorted_lookup {A : Type} (R : relation A) (l : list A) :
  Sorted R l ↔ ∀ j x y, l !! j = Some x → l !! S j = Some y → R x y.
Proof.
  split.
  - induction 1 as [|x l Hl IH Hhd]; intros j a b Ha Hb; [done|].
    destruct j as [|j]; simpl in *.
    + simplify_eq. destruct Hhd as [|y l' Hxy]; simpl in *; by simplify_eq.
    + by apply (IH j).
  - induction l as [|x l IH]; intros Hadj; constructor.
    + apply IH. intros j a b Ha Hb. by apply (Hadj (S j)).
    + destruct l as [|y l]; constructor. by apply (Hadj O).
Qed.

Lemma Sorted_weaken {A : Type} (R R' : relation A) (l : list A) :
  (∀ x y, R x y → R' x y) → Sorted R l → Sorted R' l.
Proof.
  intros HR. rewrite !Sorted_lookup. intros Hl j x y Hx Hy. eauto.
Qed.

Lemma StronglySorted_lt_NoDup (l : list Z) : StronglySorted Z.lt l → NoDup l.
Proof.
  induction 1 as [|x l Hl IH Hx]; constructor; [|done].
  intros Hin. rewrite Forall_forall in Hx. specialize (Hx x Hin). lia.
Qed.

Lemma sort_ints_Sorted (l : list Z) : Sorted Z.le (sort_ints l).
Proof.
  apply (Sorted_weaken (cmp_le compare_ints)).
  - intros x y. by rewrite compare_ints_le.
  - apply Sorted_merge_sort, _.
Qed.

Lemma sort_ints_Permutation (l : list Z) : sort_ints l ≡ₚ l.
Proof. apply merge_sort_Permutation. Qed.

Lemma sort_ints_length (l : list Z) : length (sort_ints l) = length l.
Proof. by rewrite sort_ints_Permutation. Qed.

(** A sorted list whose neighbours differ is strictly increasing. *)
Lemma Sorted_le_adjacent_lt (l : list Z) :
  Sorted Z.le l →
  (∀ j x y, l !! j = Some x → l !! S j = Some y → x ≠ y) →
  StronglySorted Z.lt l.
Proof.
  intros Hle Hne. apply Sorted_StronglySorted; [apply _|].
  apply Sorted_lookup. intros j x y Hx Hy.
  rewrite Sorted_lookup in Hle.
  specialize (Hle j x y Hx Hy). specialize (Hne j x y Hx Hy). lia.
Qed.

Lemma qsort_Ok (t : list Z) (n : Z) (t' : list Z) :
  qsort compare_ints t n = Ok t' ↔
  0 ≤ n ≤ Z.of_nat (length t) ∧
  t' = sort_ints (take (Z.to_nat n) t) ++ drop (Z.to_nat n) t.
Proof.
  unfold qsort, sort_ints. case_bool_decide; split; intros; simplify_eq;
    intuition congruence.
Qed.

Lemma sort_ints_NoDup_lt (l : list Z) :
  NoDup l → StronglySorted Z.lt (sort_ints l).
Proof.
  intros Hnd. apply Sorted_le_adjacent_lt; [apply sort_ints_Sorted|].
  rewrite <- sort_ints_Permutation in Hnd. intros j x y Hx Hy ->.
  pose proof (NoDup_lookup _ _ _ _ Hnd Hx Hy). lia.
Qed.

(** The outcome of the sort depends on the values only, not on their
    order. *)
Lemma sort_ints_order_irrelevant (l l' : list Z) :
  l ≡ₚ l' → sort_ints l = sort_ints l'.
Proof.
  intros Hperm. apply (Sorted_unique Z.le); [apply sort_ints_Sorted..|].
  by rewrite !sort_ints_Permutation.
Qed.

(** ** The distinctness check *)

Lemma are_different_scan_spec (k : nat) (i : Z) (t : list Z) :
  1 ≤ i → (k ≠ O → i + Z.of_nat k ≤ Z.of_nat (length t)) →
  ∃ d, are_different_scan k i t = Ok d ∧
    (d = true → ∀ j x y, i ≤ j < i + Z.of_nat k →
       t !! Z.to_nat (j - 1) = Some x → t !! Z.to_nat j = Some y → x ≠ y) ∧
    (d = false → ∃ j x, i ≤ j < i + Z.of_nat k ∧
       t !! Z.to_nat (j - 1) = Some x ∧ t !! Z.to_nat j = Some x).
Proof.
  revert i. induction k as [|k IH]; intros i Hi Hlen; simpl.
  { exists true. split; [done|]. split; [intros; lia | done]. }
  specialize (Hlen ltac:(done)).
  destruct (load_in_range t (i - 1)) as [x Hx]; [lia|].
  destruct (load_in_range t i) as [y Hy]; [lia|].
  rewrite Hx, bind_Ok, Hy, bind_Ok.
  apply load_Ok in Hx as [_ Hx]. apply load_Ok in Hy as [_ Hy].
  case_bool_decide as Hxy.
  - subst y. exists false. split; [done|]. split; [done|]. intros _.
    exists i, x. split; [lia|done].
  - destruct (IH (i + 1)) as (d & Hrun & Htrue & Hfalse); [lia..|].
    exists d. split; [done|]. split.
    + intros Hd j x' y' Hj Hx' Hy'.
      destruct (decide (j = i)) as [->|]; [congruence|].
      apply (Htrue Hd j); [lia|done..].
    + intros Hd. destruct (Hfalse Hd) as (j & x' & Hj & Hj').
      exists j, x'. split; [lia|done].
Qed.

(** [are_different] sorts the first [n] cells and tells whether they are
    pairwise distinct. *)
Lemma are_different_spec (t : list Z) (n : Z) :
  0 ≤ n ≤ Z.of_nat (length t) →
  are_different t n =
  Ok (bool_decide (NoDup (take (Z.to_nat n) t)),
      sort_ints (take (Z.to_nat n) t) ++ drop (Z.to_nat n) t).
Proof.
  intros Hn. unfold are_different.
  set (s := sort_ints (take (Z.to_nat n) t)).
  set (t' := s ++ drop (Z.to_nat n) t).
  assert (qsort compare_ints t n = Ok t') as -> by by apply qsort_Ok.
  rewrite bind_Ok.
  assert (length s = Z.to_nat n) as Hs.
  { unfold s. rewrite sort_ints_length, length_take. lia. }
  assert (∀ j, (j < Z.to_nat n)%nat → t' !! j = s !! j) as Hlook.
  { intros j Hj. unfold t'. apply lookup_app_l. lia. }
  destruct (are_different_scan_spec (Z.to_nat (n - 1)) 1 t')
    as (d & -> & Htrue & Hfalse); [lia| |].
  { intros Hk. unfold t'. rewrite length_app, Hs. lia. }
  rewrite bind_Ok. f_equal. f_equal. symmetry.
  destruct d.
  - apply bool_decide_eq_true. rewrite <- (sort_ints_Permutation (take _ t)).
    apply StronglySorted_lt_NoDup, Sorted_le_adjacent_lt;
      [apply sort_ints_Sorted|].
    fold s. intros j x y Hx Hy.
    assert (S j < Z.to_nat n)%nat by (apply lookup_lt_Some in Hy; lia).
    apply (Htrue eq_refl (Z.of_nat (S j))); [lia| |].
    + replace (Z.to_nat (Z.of_nat (S j) - 1)) with j by lia.
      rewrite Hlook by lia. done.
    + rewrite Nat2Z.id, Hlook by lia. done.
  - apply bool_decide_eq_false. rewrite <- (sort_ints_Permutation (take _ t)).
    fold s. destruct (Hfalse eq_refl) as (j & x & Hj & Hx & Hy).
    rewrite Hlook in Hx, Hy by lia. intros Hnd.
    pose proof (NoDup_lookup _ _ _ _ Hnd Hx Hy). lia.
Qed.

Lemma are_different_Ok_inv (t : list Z) (n : Z) (d : bool) (t' : list Z) :
  are_different t n = Ok (d, t') →
  0 ≤ n ≤ Z.of_nat (length t) ∧
  d = bool_decide (NoDup (take (Z.to_nat n) t)) ∧
  t' = sort_ints (take (Z.to_nat n) t) ++ drop (Z.to_nat n) t.
Proof.
  intros Hrun.
  assert (0 ≤ n ≤ Z.of_nat (length t)) as Hn.
  { unfold are_different in Hrun. res_inv Hrun. by apply qsort_Ok in Ha as [? _]. }
  rewrite are_different_spec in Hrun by done. by simplify_eq.
Qed.

(** ** The sampler *)

Section Sampler.

Variable rand : nat → Z.


Lemma int_arith_Ok (z r : Z) :
  int_arith z = Ok r ↔ INT_MIN ≤ z ≤ INT_MAX ∧ r = z.
Proof.
  unfold int_arith. case_bool_decide; split; intros; simplify_eq;
    intuition congruence.
Qed.

(** What [random_index rand] returns when it returns. *)
Lemma random_index_Ok_inv a b g r g' :
  random_index rand a b g = Ok (r, g') →
  a ≤ r < b ∧ r = a + Z.rem (rand g) (b - a) ∧ g' = S g ∧ b ≠ a.
Proof.
  unfold random_index. intros Hrun. res_inv Hrun.
  apply int_arith_Ok in Ha as [_ ->].
  case_bool_decide as Hd; [done|]. res_inv Hrun.
  apply int_arith_Ok in Ha as [_ ->].
  res_inv Hrun. res_inv Hrun.
  apply assert_Ok_inv, bool_decide_eq_true in Ha, Ha0.
  simplify_eq. repeat split; lia.
Qed.

(** [random_index rand] returns when [a < b] and the generator is sound. *)
Lemma random_index_total a b g :
  bounds_ok a b → 0 ≤ rand g →
  random_index rand a b g = Ok (a + Z.rem (rand g) (b - a), S g).
Proof.
  intros (Ha & Hab & Hb & Hd) Hr. unfold random_index, int_arith.
  pose proof (Z.rem_bound_pos (rand g) (b - a) Hr ltac:(lia)) as Hrem.
  assert (INT_MIN < 0) by done.
  rewrite bool_decide_eq_true_2 by lia. rewrite bind_Ok.
  rewrite bool_decide_eq_false_2 by lia.
  rewrite bool_decide_eq_true_2 by lia. rewrite bind_Ok.
  rewrite (bool_decide_eq_true_2 (_ >= _)) by lia.
  rewrite (bool_decide_eq_true_2 (_ < _)) by lia. done.
Qed.

(** With [b = a] the remainder is taken by zero. *)
Lemma random_index_zero_range a g :
  random_index rand a a g = Err DivisionByZero.
Proof.
  unfold random_index, int_arith.
  replace (a - a) with 0 by lia. done.
Qed.

(** The remainder is taken by zero only when [b = a]. *)
Lemma random_index_DivisionByZero a b g :
  random_index rand a b g = Err DivisionByZero → b = a.
Proof.
  unfold random_index, int_arith, assert.
  repeat (case_bool_decide; simpl); intros; simplify_eq; lia.
Qed.

Lemma batch_values_length a b g n : length (batch_values rand a b g n) = n.
Proof. unfold batch_values. by rewrite length_fmap, length_seq. Qed.

Lemma batch_values_S a b g n :
  batch_values rand a b g (S n) =
  batch_values rand a b g n ++ [a + Z.rem (rand (g + n)%nat) (b - a)].
Proof.
  unfold batch_values. by rewrite seq_S, fmap_app.
Qed.

Lemma batch_values_range a b g n :
  bounds_ok a b → rand_nonneg rand →
  Forall (λ r, a ≤ r < b) (batch_values rand a b g n).
Proof.
  intros (Ha & Hab & Hb & Hd) Hr. unfold batch_values.
  apply Forall_fmap, Forall_forall. intros i _. simpl.
  pose proof (Z.rem_bound_pos (rand (g + i)%nat) (b - a) (Hr _) ltac:(lia)).
  lia.
Qed.

Lemma drawn_upto_step idx a b g i l g1 r :
  0 ≤ i < Z.of_nat (length idx) →
  a ≤ r < b → r = a + Z.rem (rand g1) (b - a) →
  drawn_upto rand idx a b g i (l, g1) →
  drawn_upto rand idx a b g (i + 1) (<[Z.to_nat i := r]> l, S g1).
Proof.
  intros Hi Hr Hrv (Hl & Hg & _ & Hall). simpl in *. subst l g1.
  unfold drawn_upto.
  replace (Z.to_nat (i + 1)) with (S (Z.to_nat i)) by lia.
  rewrite batch_values_S. rewrite <- Hrv.
  split; [|split; [|split]]; simpl.
  - apply batch_store; [apply batch_values_length | lia].
  - lia.
  - lia.
  - apply Forall_app. split; [done|]. by constructor.
Qed.

Lemma draw_batch_Ok_inv idx n a b g idx' g' :
  draw_batch rand idx n a b g = Ok (idx', g') →
  drawn_upto rand idx a b g (Z.max 0 n) (idx', g').
Proof.
  unfold draw_batch, for_loop. intros Hrun.
  replace (Z.max 0 n) with (0 + Z.of_nat (Z.to_nat (n - 0))) by lia.
  eapply (for_iter_inv (drawn_upto rand idx a b g)); [| |exact Hrun].
  - split; [done|]. split; [simpl; lia|]. split; [lia|]. constructor.
  - intros j [l g1] [l' g1'] Hj Hinv Hbody. simpl in Hbody.
    res_inv Hbody. destruct a0 as [r g2].
    apply random_index_Ok_inv in Ha as (Hr & Hrv & -> & _).
    res_inv Hbody. apply store_Ok in Ha as [Hrange ->]. simplify_eq.
    assert (length l = length idx) as Hlen.
    { pose proof Hinv as (Hl & _ & Hj' & _). simpl in Hl. rewrite Hl.
      rewrite length_app, batch_values_length, length_drop. lia. }
    apply drawn_upto_step; [lia|done..].
Qed.

Lemma draw_batch_total idx n a b g :
  n ≤ Z.of_nat (length idx) → bounds_ok a b → rand_nonneg rand →
  draw_batch rand idx n a b g =
  Ok (batch_values rand a b g (Z.to_nat n) ++ drop (Z.to_nat n) idx,
      (g + Z.to_nat n)%nat).
Proof.
  intros Hn Hab Hr. unfold draw_batch, for_loop.
  destruct (for_iter_total (drawn_upto rand idx a b g) (Z.to_nat (n - 0)) 0
              (λ i '(idx, g),
                 '(r, g) ← random_index rand a b g;
                 idx ← store idx i r;
                 Ok (idx, g))
              (idx, g)) as ([l g1] & -> & Hl & Hg & _).
  - split; [done|]. split; [simpl; lia|]. split; [lia|]. constructor.
  - intros j [l g1] Hj Hinv.
    rewrite random_index_total by (done || apply Hr). rewrite bind_Ok.
    assert (length l = length idx) as Hlen.
    { pose proof Hinv as (Hl & _ & Hj' & _). simpl in Hl. rewrite Hl.
      rewrite length_app, batch_values_length, length_drop. lia. }
    rewrite store_in_range by lia. rewrite bind_Ok.
    eexists. split; [done|].
    apply drawn_upto_step; [lia| |done|done].
    destruct Hab as (? & ? & ? & ?).
    pose proof (Z.rem_bound_pos (rand g1) (b - a) (Hr _) ltac:(lia)). lia.
  - simpl in Hl, Hg. subst l g1.
    by replace (Z.to_nat (0 + Z.of_nat (Z.to_nat (n - 0)))) with (Z.to_nat n)
      by lia.
Qed.

Lemma redraw_eq fuel sc idx n a b g :
  redraw rand fuel sc idx n a b g =
  ('(idx, g) ← draw_batch rand idx n a b g;
   let safecount := sc + 1 in
   if bool_decide (safecount < 10) then
     '(d, idx) ← are_different idx n;
     if negb d then
       match fuel with
       | O => Err OutOfFuel
       | S fuel' => redraw rand fuel' safecount idx n a b g
       end
     else Ok (safecount, idx, g)
   else Ok (safecount, idx, g)).
Proof. by destruct fuel. Qed.

(** The buffer after a batch has been drawn and checked. *)
Lemma are_different_batch (l rest : list Z) (n : Z) :
  length l = Z.to_nat n → 0 ≤ n →
  are_different (l ++ rest) n =
  Ok (bool_decide (NoDup l), sort_ints l ++ rest).
Proof.
  intros Hl Hn. rewrite are_different_spec by (rewrite length_app; lia).
  by rewrite take_app_length', drop_app_length' by done.
Qed.

(** What the [do ... while] loop leaves when it ends: below ten rounds, a
    sorted batch of pairwise distinct draws. *)
Lemma redraw_Ok_inv fuel sc idx n a b g sc' idx' g' :
  redraw rand fuel sc idx n a b g = Ok (sc', idx', g') →
  length idx' = length idx ∧ sc < sc' ∧ (sc < 10 → sc' ≤ 10) ∧
  (sc' < 10 →
   ∃ g0, g' = (g0 + Z.to_nat n)%nat ∧ (g ≤ g0)%nat ∧
     0 ≤ n ≤ Z.of_nat (length idx) ∧
     NoDup (batch_values rand a b g0 (Z.to_nat n)) ∧
     Forall (λ r, a ≤ r < b) (batch_values rand a b g0 (Z.to_nat n)) ∧
     idx' = sort_ints (batch_values rand a b g0 (Z.to_nat n)) ++
            drop (Z.to_nat n) idx).
Proof.
  revert sc idx g. induction fuel as [|fuel IH]; intros sc idx g;
    rewrite redraw_eq; intros Hrun; res_inv Hrun; destruct a0 as [idx1 g1];
    apply draw_batch_Ok_inv in Ha as (Hidx1 & Hg1 & Hn & Hrange);
    simpl in Hidx1, Hg1;
    replace (Z.to_nat (Z.max 0 n)) with (Z.to_nat n) in * by lia;
    (assert (length idx1 = length idx) as Hlen1
      by (rewrite Hidx1, length_app, batch_values_length, length_drop; lia));
    cbv zeta in Hrun; case_bool_decide as Hsc;
    try (simplify_eq; split; [done|]; split; [lia|]; split; [lia|];
         intros; lia);
    res_inv Hrun; destruct a0 as [d idx2];
    apply are_different_Ok_inv in Ha as (Hn' & -> & ->);
    rewrite Hidx1 in Hrun;
    rewrite take_app_length', drop_app_length' in Hrun
      by (rewrite batch_values_length; lia);
    case_bool_decide as Hnd; simpl in Hrun; try done.
  - simplify_eq. split; [by rewrite <- Hlen1, !length_app, sort_ints_length|].
    split; [lia|]. split; [lia|]. intros _. exists g.
    repeat (split; [done || lia|]). done.
  - simplify_eq. split; [by rewrite <- Hlen1, !length_app, sort_ints_length|].
    split; [lia|]. split; [lia|]. intros _. exists g.
    repeat (split; [done || lia|]). done.
  - apply IH in Hrun as (Hlen & Hlt & Hle & Hsorted).
    rewrite length_app, sort_ints_length, <- length_app, <- Hidx1 in Hlen.
    split; [congruence|]. split; [lia|]. split; [lia|].
    intros Hsc'. destruct (Hsorted Hsc') as (g0 & -> & Hg0 & _ & ? & ? & ->).
    exists g0. repeat (split; [done || lia|]).
    rewrite drop_app_length'; [done|].
    rewrite sort_ints_length, batch_values_length. lia.
Qed.

(** What [fill_random_indices rand] leaves when it returns: the sorted values
    of a batch of pairwise distinct draws, each in [[a, b)]. *)
Lemma fill_random_indices_Ok_inv idx n a b g idx' g' :
  fill_random_indices rand idx n a b g = Ok (idx', g') →
  ∃ g0, g' = (g0 + Z.to_nat n)%nat ∧ (g ≤ g0)%nat ∧
    0 ≤ n ≤ Z.of_nat (length idx) ∧
    NoDup (batch_values rand a b g0 (Z.to_nat n)) ∧
    Forall (λ r, a ≤ r < b) (batch_values rand a b g0 (Z.to_nat n)) ∧
    idx' = sort_ints (batch_values rand a b g0 (Z.to_nat n)) ++
           drop (Z.to_nat n) idx.
Proof.
  unfold fill_random_indices. intros Hrun. res_inv Hrun.
  destruct a0 as [[sc' idx1] g1].
  case_bool_decide as Hsc; [done|]. simplify_eq.
  apply redraw_Ok_inv in Ha as (_ & _ & Hle & Hsorted).
  apply Hsorted. specialize (Hle ltac:(lia)). lia.
Qed.

(** Under the preconditions of the sampler the loop is the search for the
    first pairwise distinct batch among those it checks. *)
Lemma redraw_spec fuel sc idx n a b g :
  0 ≤ sc ≤ 9 → 9 ≤ sc + Z.of_nat fuel →
  0 ≤ n ≤ Z.of_nat (length idx) → bounds_ok a b → rand_nonneg rand →
  match first_distinct_batch rand (Z.to_nat (9 - sc)) (Z.to_nat n) a b g with
  | Some (s, g') =>
      ∃ sc', sc' < 10 ∧
        redraw rand fuel sc idx n a b g = Ok (sc', s ++ drop (Z.to_nat n) idx, g')
  | None => ∃ idx' g', redraw rand fuel sc idx n a b g = Ok (10, idx', g')
  end.
Proof.
  revert sc idx g. induction fuel as [|fuel IH]; intros sc idx g Hsc Hfuel Hn
    Hab Hr; rewrite redraw_eq, draw_batch_total by (done || lia);
    rewrite bind_Ok; cbv zeta.
  - replace sc with 9 by lia. simpl. eauto.
  - destruct (decide (sc = 9)) as [->|Hne]; [simpl; eauto|].
    rewrite bool_decide_eq_true_2 by lia.
    rewrite are_different_batch by (rewrite ?batch_values_length; lia).
    rewrite bind_Ok.
    replace (Z.to_nat (9 - sc)) with (S (Z.to_nat (9 - (sc + 1)))) by lia.
    simpl. case_bool_decide as Hnd; simpl.
    + exists (sc + 1). split; [lia|done].
    + specialize (IH (sc + 1)
        (sort_ints (batch_values rand a b g (Z.to_nat n)) ++ drop (Z.to_nat n) idx)
        (g + Z.to_nat n)%nat ltac:(lia) ltac:(lia)).
      rewrite drop_app_length' in IH
        by (rewrite sort_ints_length, batch_values_length; lia).
      apply IH; [|done..].
      rewrite length_app, sort_ints_length, batch_values_length, length_drop.
      lia.
Qed.

(** [fill_random_indices rand] returns the first pairwise distinct batch among
    the nine it checks, and fails when there is none. *)
Lemma fill_random_indices_spec idx n a b g :
  0 ≤ n ≤ Z.of_nat (length idx) → bounds_ok a b → rand_nonneg rand →
  fill_random_indices rand idx n a b g =
  match first_distinct_batch rand 9 (Z.to_nat n) a b g with
  | Some (s, g') => Ok (s ++ drop (Z.to_nat n) idx, g')
  | None => fail "could not generate any model"
  end.
Proof.
  intros Hn Hab Hr. unfold fill_random_indices.
  pose proof (redraw_spec 10 0 idx n a b g ltac:(lia) ltac:(lia) Hn Hab Hr)
    as Hspec.
  change (Z.to_nat (9 - 0)) with 9%nat in Hspec.
  destruct (first_distinct_batch rand 9 (Z.to_nat n) a b g) as [[s g']|].
  - destruct Hspec as (sc' & Hsc' & ->). rewrite bind_Ok.
    by rewrite bool_decide_eq_false_2 by lia.
  - by destruct Hspec as (idx' & g' & ->).
Qed.

(** Over an empty range the first draw of the sampler divides by zero. *)
Lemma draw_batch_empty_range idx n a g :
  1 ≤ n → draw_batch rand idx n a a g = Err DivisionByZero.
Proof.
  intros Hn. unfold draw_batch, for_loop.
  destruct (Z.to_nat (n - 0)) as [|k] eqn:Hk; [lia|].
  simpl. by rewrite random_index_zero_range.
Qed.

Lemma fill_random_indices_empty_range idx n a g :
  1 ≤ n → fill_random_indices rand idx n a a g = Err DivisionByZero.
Proof.
  intros Hn. unfold fill_random_indices.
  by rewrite redraw_eq, draw_batch_empty_range.
Qed.

(** More draws than there are values cannot be pairwise distinct. *)
Lemma batch_values_pigeonhole a b g n :
  bounds_ok a b → rand_nonneg rand → b - a < Z.of_nat n →
  ¬ NoDup (batch_values rand a b g n).
Proof.
  intros Hab Hr Hn Hnd.
  pose proof (batch_values_range a b g n Hab Hr) as Hrange.
  assert (batch_values rand a b g n ⊆+ seqZ a (b - a)) as Hsub.
  { apply NoDup_submseteq; [done|]. intros x Hx.
    rewrite Forall_forall in Hrange. apply elem_of_seqZ.
    specialize (Hrange x Hx). lia. }
  apply submseteq_length in Hsub.
  rewrite batch_values_length, length_seqZ in Hsub.
  destruct Hab as (_ & ? & _). lia.
Qed.

Lemma first_distinct_batch_pigeonhole k a b g n :
  bounds_ok a b → rand_nonneg rand → b - a < Z.of_nat n →
  first_distinct_batch rand k n a b g = None.
Proof.
  intros Hab Hr Hn. revert g. induction k as [|k IH]; intros g; [done|].
  simpl. rewrite bool_decide_eq_false_2; [done|].
  by apply batch_values_pigeonhole.
Qed.

(** Asked for more indices than the range holds, the sampler fails. *)
Lemma fill_random_indices_too_many idx n a b g :
  0 ≤ n ≤ Z.of_nat (length idx) → bounds_ok a b → rand_nonneg rand →
  b - a < n →
  fill_random_indices rand idx n a b g = fail "could not generate any model".
Proof.
  intros Hn Hab Hr Hlt. rewrite fill_random_indices_spec by done.
  by rewrite first_distinct_batch_pigeonhole by (done || lia).
Qed.

End Sampler.

(** ** The sample of a trial *)

Section Sample.

Variable rand : nat → Z.
Variable data : list float.
Variables datadim n nfit : Z.


(** The loop over the fields of point [j]. *)
Lemma gather_point indices j x0 x :
  0 ≤ j →
  for_loop 0 datadim (λ k x,
    ij ← load indices j;
    v ← load data (datadim * ij + k);
    store x (datadim * j + k) v) x0 = Ok x →
  length x = length x0 ∧
  (∀ k, 0 ≤ k < datadim → gathered data datadim indices x j k) ∧
  (∀ p, ¬ (datadim * j ≤ Z.of_nat p < datadim * j + datadim) → x !! p = x0 !! p).
Proof.
  intros Hj Hrun. unfold for_loop in Hrun.
  apply (for_iter_inv (λ k x,
           0 ≤ k ≤ Z.max 0 datadim ∧ length x = length x0 ∧
           (∀ k', 0 ≤ k' < k → gathered data datadim indices x j k') ∧
           (∀ p, ¬ (datadim * j ≤ Z.of_nat p < datadim * j + k) →
              x !! p = x0 !! p))) in Hrun.
  - destruct Hrun as (_ & Hlen & Hrow & Hframe).
    split; [done|]. split.
    + intros k Hk. apply Hrow. lia.
    + intros p Hp. apply Hframe. lia.
  - split; [lia|]. split; [done|]. split; [intros; lia|done].
  - intros k x1 x2 Hk (Hk' & Hlen & Hrow & Hframe) Hbody.
    res_inv Hbody. res_inv Hbody.
    apply load_Ok in Ha as [_ Hij]. apply load_Ok in Ha0 as [Hpos Hv].
    apply store_Ok in Hbody as [Hrange ->].
    split; [lia|]. split; [by rewrite length_insert|]. split.
    + intros k' Hk'2. destruct (decide (k' = k)) as [->|Hne].
      * exists a, a0. repeat (split; [done|]).
        apply list_lookup_insert_eq. lia.
      * destruct (Hrow k') as (ij & v & ? & ? & ? & Hx); [lia|].
        exists ij, v. repeat (split; [done|]).
        rewrite list_lookup_insert_ne by lia. done.
    + intros p Hp. rewrite list_lookup_insert_ne by lia. apply Hframe. lia.
Qed.

(** The sample holds, point after point, the data points the indices
    name. *)
Lemma gather_sample_Ok_inv indices x0 x :
  gather_sample data datadim nfit indices x0 = Ok x →
  length x = length x0 ∧
  ∀ j k, 0 ≤ j < nfit → 0 ≤ k < datadim → gathered data datadim indices x j k.
Proof.
  unfold gather_sample, for_loop. intros Hrun.
  apply (for_iter_inv (λ j x,
           0 ≤ j ≤ Z.max 0 nfit ∧ length x = length x0 ∧
           ∀ j' k, 0 ≤ j' < j → 0 ≤ k < datadim → gathered data datadim indices x j' k))
    in Hrun.
  - destruct Hrun as (_ & Hlen & Hrows). split; [done|].
    intros j k Hj Hk. apply Hrows; lia.
  - split; [lia|]. split; [done|]. intros; lia.
  - intros j x1 x2 Hj (Hj' & Hlen & Hrows) Hbody.
    apply gather_point in Hbody as (Hlen2 & Hrow & Hframe); [|lia].
    split; [lia|]. split; [congruence|].
    intros j' k Hj'2 Hk. destruct (decide (j' = j)) as [->|Hne]; [by apply Hrow|].
    destruct (Hrows j' k) as (ij & v & ? & ? & ? & Hx); [lia..|].
    exists ij, v. repeat (split; [done|]).
    rewrite Hframe; [done|]. nia.
Qed.

(** The sample of a trial: indices in strictly increasing order, each in
    [[0, n)], that are the sorted values of one batch of draws, and the
    data points they name. *)
Lemma draw_sample_Ok_inv g indices x g' :
  draw_sample rand data datadim n nfit g = Ok (indices, x, g') →
  0 ≤ nfit ∧ length indices = Z.to_nat nfit ∧
  (∃ g0, g' = (g0 + Z.to_nat nfit)%nat ∧ (g ≤ g0)%nat ∧
     NoDup (batch_values rand 0 n g0 (Z.to_nat nfit)) ∧
     indices = sort_ints (batch_values rand 0 n g0 (Z.to_nat nfit))) ∧
  Forall (λ r, 0 ≤ r < n) indices ∧
  (∀ j k, 0 ≤ j < nfit → 0 ≤ k < datadim → gathered data datadim indices x j k).
Proof.
  unfold draw_sample. intros Hrun. res_inv Hrun.
  unfold vla in Ha. case_bool_decide as Hnfit; [|done]. simplify_eq.
  res_inv Hrun. destruct a as [idx g1].
  apply fill_random_indices_Ok_inv in Ha
    as (g0 & -> & Hg0 & _ & Hnd & Hrange & ->).
  rewrite drop_ge, app_nil_r in * by (rewrite length_replicate; lia).
  res_inv Hrun. res_inv Hrun. simplify_eq.
  apply gather_sample_Ok_inv in Ha0 as [_ Hx].
  split; [done|]. split.
  { by rewrite sort_ints_length, batch_values_length. }
  split; [by exists g0|]. split; [|done].
  by rewrite sort_ints_Permutation.
Qed.

End Sample.

(** ** Main results on [ransac_trial] *)

(** C3.  When [ransac_trial] returns over [n] data points, the count it
    returns is the number of [true] entries among the [n] entries of the
    mask, entry [i] of the mask is [true] exactly when the error of point
    [i] is strictly below [max_error], and a point whose error equals
    [max_error] is marked as an outlier. *)
Theorem ransac_trial_mask_count {U : Type}
    (mev : list (cell float) → list float → Z → U → float)
    (out_mask : list (cell bool)) (data : list float)
    (model : list (cell float)) (max_error : float) (datadim n : Z) (usr : U)
    (mask : list (cell bool)) (cx : Z) :
  ransac_trial mev out_mask data model max_error datadim n usr = Ok (mask, cx) →
  cx = count_true n mask ∧
  (∀ i, 0 ≤ i < n →
     mask !! Z.to_nat i =
     Some (Some (SFltb (mev model data (i * datadim) usr) max_error))) ∧
  (∀ i, 0 ≤ i < n →
     SFeqb (mev model data (i * datadim) usr) max_error = true →
     mask !! Z.to_nat i = Some (Some false)).
Proof.
  intros Hrun. apply ransac_trial_scored in Hrun
    as (_ & Hcx & Hmask & _). simpl in Hcx, Hmask.
  split; [|split].
  - destruct (decide (n ≤ 0)) as [Hn|Hn].
    + rewrite Hcx. replace (Z.max 0 n) with 0 by lia.
      by rewrite !count_true_nonpos by lia.
    + by replace (Z.max 0 n) with n in Hcx by lia.
  - intros i Hi. apply Hmask. lia.
  - intros i Hi Heq. rewrite Hmask by lia. unfold inlier, point_error.
    by rewrite (SFeqb_not_SFltb _ _ Heq).
Qed.

Lemma ransac_trial_mask_count_witness :
  ransac_trial ex_mev [None; None; None; None] ex_data [] ex_f2 1 4 () =
    Ok ([Some true; Some false; Some false; Some true], 2) ∧
  2 = count_true 4 [Some true; Some false; Some false; Some true].
Proof.
  split; [reflexivity|].
  apply (ransac_trial_mask_count ex_mev [None; None; None; None] ex_data []
           ex_f2 1 4 ()).
  reflexivity.
Defined.

(** C7.  [ransac_trial] requires the error of every point it scores to
    pass [e >= 0]: a negative error at any of the [n] points keeps the
    function from returning, and with room for [n] entries in the mask the
    run ends at the failed assertion; when every error passes [e >= 0] no
    assertion fails, and with room in the mask the function returns. *)
Theorem ransac_trial_error_nonnegative {U : Type}
    (mev : list (cell float) → list float → Z → U → float)
    (out_mask : list (cell bool)) (data : list float)
    (model : list (cell float)) (max_error : float) (datadim n : Z) (usr : U) :
  let run := ransac_trial mev out_mask data model max_error datadim n usr in
  ((∃ i, 0 ≤ i < n ∧ SFltb (mev model data (i * datadim) usr) float_zero = true) →
     (∀ r, run ≠ Ok r) ∧
     (n ≤ Z.of_nat (length out_mask) → run = Err (AssertFailed "e >= 0"))) ∧
  ((∀ i, 0 ≤ i < n → SFleb float_zero (mev model data (i * datadim) usr) = true) →
     (∀ cond, run ≠ Err (AssertFailed cond)) ∧
     (n ≤ Z.of_nat (length out_mask) → ∃ mask cx, run = Ok (mask, cx))).
Proof.
  intros run. split.
  - intros (i & Hi & Hneg). apply SFltb_zero_not_SFleb in Hneg. split.
    + intros [mask cx] Hrun. apply ransac_trial_scored in Hrun
        as (_ & _ & _ & _ & Hpos & _).
      unfold point_error in Hpos. rewrite Hpos in Hneg by lia. done.
    + intros Hlen. apply ransac_trial_stops; [done|].
      exists i. by split.
  - intros Hpos. split.
    + intros cond Hrun. apply ransac_trial_AssertFailed_inv in Hrun
        as (i & Hi & Hneg).
      unfold point_error in Hneg. rewrite Hpos in Hneg by lia. done.
    + intros Hlen. by apply ransac_trial_total.
Qed.

Lemma ransac_trial_error_nonnegative_witness :
  ransac_trial ex_mev [None; None; None; None] ex_data_neg [] ex_f2 1 4 () =
    Err (AssertFailed "e >= 0") ∧
  ∃ mask cx,
    ransac_trial ex_mev [None; None; None; None] ex_data [] ex_f2 1 4 () =
    Ok (mask, cx).
Proof.
  split.
  - apply (ransac_trial_error_nonnegative ex_mev [None; None; None; None]
             ex_data_neg [] ex_f2 1 4 ()).
    + exists 2. split; [lia | reflexivity].
    + simpl. lia.
  - apply (ransac_trial_error_nonnegative ex_mev [None; None; None; None]
             ex_data [] ex_f2 1 4 ()).
    + intros i Hi.
      assert (i = 0 ∨ i = 1 ∨ i = 2 ∨ i = 3) as [->|[->|[->| ->]]] by lia;
        reflexivity.
    + simpl. lia.
Defined.

(** ** Main results on the sampler *)

(** C4.  Whenever [fill_random_indices] returns, the [n] indices it leaves
    in the buffer are pairwise distinct and lie in [[a, b)]; in a trial of
    [ransac], where the range is [[0, n)], the sample that is handed to the
    model generator is therefore always gathered from pairwise distinct
    indices of data points. *)
Theorem sampler_indices_distinct (rand : nat → Z) :
  (∀ idx n a b g idx' g',
     fill_random_indices rand idx n a b g = Ok (idx', g') →
     length (take (Z.to_nat n) idx') = Z.to_nat n ∧
     NoDup (take (Z.to_nat n) idx') ∧
     Forall (λ r, a ≤ r < b) (take (Z.to_nat n) idx')) ∧
  (∀ data datadim n nfit g indices x g',
     draw_sample rand data datadim n nfit g = Ok (indices, x, g') →
     length indices = Z.to_nat nfit ∧
     NoDup indices ∧
     Forall (λ r, 0 ≤ r < n) indices ∧
     ∀ j k, 0 ≤ j < nfit → 0 ≤ k < datadim →
       gathered data datadim indices x j k).
Proof.
  split.
  - intros idx n a b g idx' g' Hrun.
    apply fill_random_indices_Ok_inv in Hrun
      as (g0 & _ & _ & Hn & Hnd & Hrange & ->).
    rewrite take_app_length'
      by (rewrite sort_ints_length, batch_values_length; lia).
    rewrite !sort_ints_Permutation, batch_values_length. done.
  - intros data datadim n nfit g indices x g' Hrun.
    apply draw_sample_Ok_inv in Hrun
      as (_ & Hlen & (g0 & _ & _ & Hnd & ->) & Hrange & Hx).
    split; [done|]. split; [by rewrite sort_ints_Permutation|]. by split.
Qed.

Lemma sampler_indices_distinct_witness :
  fill_random_indices ex_rand_id [0; 0; 0] 3 0 5 0%nat = Ok ([0; 1; 2], 3%nat) ∧
  NoDup (take 3 [0; 1; 2]).
Proof.
  split; [reflexivity|].
  apply (proj1 (sampler_indices_distinct ex_rand_id)
           [0; 0; 0] 3 0 5 0%nat [0; 1; 2] 3%nat).
  reflexivity.
Defined.

(** C9.  The distinctness check sorts the buffer in place: whenever the
    sampler returns, its [n] indices are in strictly increasing order and
    are the sorted values of the last batch of draws, whatever the order
    in which that batch was drawn; the points of the sample of a trial
    follow that order. *)
Theorem sampler_indices_increasing (rand : nat → Z) :
  (∀ idx n a b g idx' g',
     fill_random_indices rand idx n a b g = Ok (idx', g') →
     StronglySorted Z.lt (take (Z.to_nat n) idx') ∧
     ∃ g0, g' = (g0 + Z.to_nat n)%nat ∧
       ∀ drawn, drawn ≡ₚ batch_values rand a b g0 (Z.to_nat n) →
         take (Z.to_nat n) idx' = sort_ints drawn) ∧
  (∀ data datadim n nfit g indices x g',
     draw_sample rand data datadim n nfit g = Ok (indices, x, g') →
     StronglySorted Z.lt indices ∧
     ∀ j k, 0 ≤ j < nfit → 0 ≤ k < datadim →
       gathered data datadim indices x j k).
Proof.
  split.
  - intros idx n a b g idx' g' Hrun.
    apply fill_random_indices_Ok_inv in Hrun
      as (g0 & -> & _ & Hn & Hnd & Hrange & ->).
    rewrite take_app_length'
      by (rewrite sort_ints_length, batch_values_length; lia).
    split; [by apply sort_ints_NoDup_lt|].
    exists g0. split; [done|]. intros drawn Hperm.
    by apply sort_ints_order_irrelevant.
  - intros data datadim n nfit g indices x g' Hrun.
    apply draw_sample_Ok_inv in Hrun
      as (_ & Hlen & (g0 & _ & _ & Hnd & ->) & Hrange & Hx).
    split; [by apply sort_ints_NoDup_lt | done].
Qed.

Lemma sampler_indices_increasing_witness :
  batch_values ex_rand_down 0 4 0%nat 2 = [3; 2] ∧
  draw_sample ex_rand_down ex_data 1 4 2 0%nat =
    Ok ([2; 3], [ex_f4; ex_f1], 2%nat) ∧
  StronglySorted Z.lt [2; 3].
Proof.
  split; [reflexivity|]. split; [reflexivity|].
  apply (proj2 (sampler_indices_increasing ex_rand_down)
           ex_data 1 4 2 0%nat [2; 3] [ex_f4; ex_f1] 2%nat).
  reflexivity.
Defined.

(** C5, at the input where the code departs from it.  With a range of two
    values and two indices asked for, a generator whose first nine batches
    repeat a value and whose tenth batch is [0, 1]: the tenth batch is
    pairwise distinct, within ten batch draws, and the sampler fails all
    the same, because the loop leaves on the count before the tenth batch
    is checked. *)
Theorem fill_random_indices_tenth_batch :
  first_distinct_batch ex_rand_late 9 2 0 2 0%nat = None ∧
  batch_values ex_rand_late 0 2 18%nat 2 = [0; 1] ∧
  NoDup (batch_values ex_rand_late 0 2 18%nat 2) ∧
  fill_random_indices ex_rand_late [0; 0] 2 0 2 0%nat =
  Err (Fatal "could not generate any model").
Proof.
  split; [reflexivity|]. split; [reflexivity|]. split; [|reflexivity].
  change (NoDup [0; 1]). apply NoDup_cons. split; [|apply NoDup_singleton].
  rewrite list_elem_of_singleton. lia.
Qed.

(** ** The ways in which the engine stops *)

Section Stops.

Context {U : Type}.
Variable mev : list (cell float) → list float → Z → U → float.
Variable mgen : list (cell float) → list float → U → list (cell float).
Variable macc : option (list (cell float) → U → bool).
Variable rand : nat → Z.
Variable xmalloc_ok : Z → bool.

Lemma ransac_trial_ordinary out_mask data model max_error datadim n usr :
  fails_within
    (ransac_trial mev out_mask data model max_error datadim n usr) ordinary.
Proof. unfold ransac_trial. repeat fails_step. Qed.

Lemma random_index_errors a b g :
  fails_within (random_index rand a b g) (sampler_errors a b).
Proof.
  unfold random_index. apply fails_within_bind; [fails_step|].
  intros d Hd. apply int_arith_Ok in Hd as [_ ->].
  case_bool_decide as Hz.
  - apply fails_within_Err. split; [done|]. intros _. lia.
  - repeat fails_step.
Qed.

Lemma draw_batch_errors idx n a b g :
  fails_within (draw_batch rand idx n a b g) (sampler_errors a b).
Proof.
  unfold draw_batch. repeat fails_step. apply random_index_errors.
Qed.

Lemma are_different_scan_ordinary k i t :
  fails_within (are_different_scan k i t) ordinary.
Proof.
  revert i. induction k as [|k IH]; intros i; simpl; repeat fails_step.
  apply IH.
Qed.

Lemma are_different_ordinary t n : fails_within (are_different t n) ordinary.
Proof.
  unfold are_different. fails_step.
  - unfold qsort. case_bool_decide; [fails_step|].
    apply fails_within_Err. by split.
  - fails_step; [apply are_different_scan_ordinary | fails_step].
Qed.

Lemma redraw_errors fuel sc idx n a b g :
  9 ≤ sc + Z.of_nat fuel →
  fails_within (redraw rand fuel sc idx n a b g) (sampler_errors a b).
Proof.
  revert sc idx g. induction fuel as [|fuel IH]; intros sc idx g Hfuel;
    rewrite redraw_eq;
    (apply fails_within_bind; [apply draw_batch_errors|]);
    intros [idx1 g1] _; cbv zeta;
    (case_bool_decide as Hsc; [|apply fails_within_Ok]);
    (apply fails_within_bind;
       [apply (fails_within_weaken _ ordinary);
          [apply ordinary_sampler_errors | apply are_different_ordinary]|]);
    intros [d idx2] _; (destruct d; simpl; [apply fails_within_Ok|]).
  - lia.
  - apply IH. lia.
Qed.

(** [fill_random_indices] never runs out of the fuel of the embedding,
    and divides by zero only when the range is empty. *)
Lemma fill_random_indices_errors idx n a b g :
  fails_within (fill_random_indices rand idx n a b g) (sampler_errors a b).
Proof.
  unfold fill_random_indices. fails_step; [apply redraw_errors; lia|].
  destruct a0 as [[sc idx1] g1]. repeat fails_step.
Qed.

Lemma fill_random_indices_fuel idx n a b g :
  fill_random_indices rand idx n a b g ≠ Err OutOfFuel.
Proof. intros Hrun. by apply fill_random_indices_errors in Hrun as [? _]. Qed.

Section Fit.

Variable data : list float.
Variables datadim n modeldim nfit : Z.
Variable max_error : float.
Variable usr : U.

Lemma gather_sample_ordinary indices x :
  fails_within (gather_sample data datadim nfit indices x) ordinary.
Proof. unfold gather_sample. repeat fails_step. Qed.

Lemma draw_sample_errors g :
  fails_within (draw_sample rand data datadim n nfit g) (sampler_errors 0 n).
Proof.
  unfold draw_sample. fails_step; [fails_step|].
  fails_step; [apply fill_random_indices_errors|].
  destruct a0 as [idx g1]. fails_step; [fails_step|].
  fails_step; [|fails_step].
  apply (fails_within_weaken _ ordinary);
    [apply ordinary_sampler_errors | apply gather_sample_ordinary].
Qed.

Lemma trial_errors st :
  fails_within
    (trial mev mgen macc rand data datadim n modeldim nfit max_error usr st)
    (sampler_errors 0 n).
Proof.
  unfold trial. fails_step; [apply draw_sample_errors|].
  destruct a as [[indices x] g]. fails_step; [fails_step|].
  cbv zeta. destruct (rejected _ _ _); [fails_step|].
  apply (fails_within_weaken _ ordinary); [apply ordinary_sampler_errors|].
  fails_step; [apply ransac_trial_ordinary|].
  destruct a0 as [tmp cx]. case_bool_decide; [|fails_step].
  fails_step; [apply copy_cells_ordinary|].
  fails_step; [apply copy_cells_ordinary | fails_step].
Qed.

End Fit.

(** [ransac] never runs out of the fuel of the embedding, and divides by
    zero only when there are no data points. *)
Lemma ransac_errors m datadim n modeldim nfit ntrials min_inliers max_error
    (usr : U) :
  fails_within
    (ransac mev mgen macc rand xmalloc_ok m datadim n modeldim nfit ntrials
       min_inliers max_error usr)
    (sampler_errors 0 n).
Proof.
  unfold ransac. fails_step.
  - apply (fails_within_weaken _ ordinary); [apply ordinary_sampler_errors|].
    unfold ransac_init, xmalloc_mask. repeat fails_step.
  - fails_step; [fails_step; apply trial_errors|].
    apply (fails_within_weaken _ ordinary); [apply ordinary_sampler_errors|].
    unfold ransac_finish. case_bool_decide; [|fails_step].
    fails_step; [apply copy_out_ordinary|].
    fails_step; [apply copy_out_ordinary | fails_step].
Qed.

End Stops.

(** ** Selecting among scored trials *)

Lemma max_from_ge (b : Z) (log : list scored) : b ≤ max_from b log.
Proof.
  revert b. induction log as [|e log IH]; intros b; simpl; [lia|].
  change (fold_left _ log ?x) with (max_from x log).
  specialize (IH (Z.max b (sc_count e))). lia.
Qed.

Lemma max_from_cons (b : Z) (e : scored) (log : list scored) :
  max_from b (e :: log) = max_from (Z.max b (sc_count e)) log.
Proof. reflexivity. Qed.

Lemma max_from_upper (b : Z) (log : list scored) (e : scored) :
  e ∈ log → sc_count e ≤ max_from b log.
Proof.
  revert b. induction log as [|e' log IH]; intros b Hin.
  - by apply elem_of_nil in Hin.
  - rewrite max_from_cons. apply elem_of_cons in Hin as [->|Hin].
    + pose proof (max_from_ge (Z.max b (sc_count e')) log). lia.
    + by apply IH.
Qed.

Lemma max_from_attained (b : Z) (log : list scored) :
  max_from b log = b ∨ ∃ e, e ∈ log ∧ sc_count e = max_from b log.
Proof.
  revert b. induction log as [|e log IH]; intros b; [by left|].
  rewrite max_from_cons.
  destruct (IH (Z.max b (sc_count e))) as [Heq|(e' & Hin & Heq)].
  - rewrite Heq. destruct (decide (sc_count e ≤ b)); [left; lia|].
    right. exists e. split; [apply elem_of_cons; by left | lia].
  - right. exists e'. split; [apply elem_of_cons; by right | done].
Qed.

Lemma find_count_Some (c : Z) (log : list scored) (e : scored) :
  find_count c log = Some e ↔
  ∃ pre post, log = pre ++ e :: post ∧ sc_count e = c ∧
    ∀ e', e' ∈ pre → sc_count e' ≠ c.
Proof.
  induction log as [|e0 log IH]; simpl.
  - split; [done|]. intros (pre & post & Hlog & _). by destruct pre.
  - case_bool_decide as Hc.
    + split.
      * intros [= <-]. exists [], log. split; [done|]. split; [done|].
        intros e' Hin. by apply elem_of_nil in Hin.
      * intros (pre & post & Hlog & He & Hpre).
        destruct pre as [|e1 pre]; simpl in Hlog; injection Hlog as <- ->.
        { done. }
        exfalso. apply (Hpre e0); [apply elem_of_cons; by left | done].
    + rewrite IH. split.
      * intros (pre & post & -> & He & Hpre). exists (e0 :: pre), post.
        split; [done|]. split; [done|]. intros e' Hin.
        apply elem_of_cons in Hin as [->|Hin]; [done | by apply Hpre].
      * intros (pre & post & Hlog & He & Hpre).
        destruct pre as [|e1 pre]; simpl in Hlog; injection Hlog as <- ->.
        { done. }
        exists pre, post. split; [done|]. split; [done|].
        intros e' Hin. apply Hpre. apply elem_of_cons. by right.
Qed.

(** The selection of the loop keeps the earliest scored trial of greatest
    count, when that count exceeds the count [b] it starts from. *)
Lemma select_spec (b : Z) (cur : option scored) (log : list scored) :
  select (b, cur) log =
  (max_from b log,
   if bool_decide (max_from b log > b) then find_count (max_from b log) log
   else cur).
Proof.
  revert b cur. induction log as [|e log IH]; intros b cur.
  - simpl. by rewrite bool_decide_eq_false_2 by lia.
  - rewrite max_from_cons. unfold select. simpl.
    change (fold_left _ log ?x) with (select x log).
    pose proof (max_from_ge (Z.max b (sc_count e)) log) as Hge.
    case_bool_decide as Hgt.
    + rewrite IH. replace (Z.max b (sc_count e)) with (sc_count e) in * by lia.
      f_equal. rewrite (bool_decide_eq_true_2 (_ > b)) by lia.
      repeat case_bool_decide; done || lia.
    + rewrite IH. replace (Z.max b (sc_count e)) with b in * by lia.
      f_equal. repeat case_bool_decide; done || lia.
Qed.

Lemma select_app (sel : Z * option scored) (l1 l2 : list scored) :
  select sel (l1 ++ l2) = select (select sel l1) l2.
Proof. unfold select. by rewrite fold_left_app. Qed.

(** ** The best trial so far *)

Section Best.

Context {U : Type}.
Variable mev : list (cell float) → list float → Z → U → float.
Variable mgen : list (cell float) → list float → U → list (cell float).
Variable macc : option (list (cell float) → U → bool).
Variable rand : nat → Z.
Variable data : list float.
Variables datadim n modeldim nfit : Z.
Variable max_error : float.
Variable usr : U.

Local Abbreviation this_trial :=
  (trial mev mgen macc rand data datadim n modeldim nfit max_error usr).
Local Abbreviation this_candidate :=
  (trial_candidate mev mgen macc rand data datadim n modeldim nfit max_error
     usr).
Local Abbreviation this_update := (trial_update n modeldim).
Local Abbreviation these_trials :=
  (run_trials mev mgen macc rand data datadim n modeldim nfit max_error usr).
Local Abbreviation these_scored :=
  (scored_trials mev mgen macc rand data datadim n modeldim nfit max_error
     usr).
Local Abbreviation this_holds := (holds n modeldim).
Local Abbreviation this_in_step := (in_step n modeldim).

(** The body of the loop is its two parts one after the other. *)
Lemma trial_eq st :
  this_trial st =
  ('(g, tmp, c) ← this_candidate (st_rand st) (tmp_mask st);
   this_update st g tmp c).
Proof.
  unfold trial, trial_candidate.
  destruct (draw_sample _ _ _ _ _ _) as [[[indices x] g]|e]; [|done].
  rewrite !bind_Ok. destruct (vla modeldim _) as [model|e]; [|done].
  rewrite !bind_Ok. cbv zeta. destruct (rejected _ _ _); [done|].
  destruct (ransac_trial _ _ _ _ _ _ _ _) as [[tmp cx]|e]; done.
Qed.

Lemma trial_update_Ok_inv st g tmp c st' :
  this_update st g tmp c = Ok st' →
  st_rand st' = g ∧ tmp_mask st' = tmp ∧
  match c with
  | Some (model, n_inliers) =>
      if bool_decide (n_inliers > best_ninliers st) then
        best_ninliers st' = n_inliers ∧
        best_model st' = overwrite modeldim model (best_model st) ∧
        best_mask st' = overwrite n tmp (best_mask st) ∧
        modeldim ≤ Z.of_nat (length model) ∧
        modeldim ≤ Z.of_nat (length (best_model st)) ∧
        n ≤ Z.of_nat (length tmp) ∧
        n ≤ Z.of_nat (length (best_mask st))
      else
        best_ninliers st' = best_ninliers st ∧
        best_model st' = best_model st ∧ best_mask st' = best_mask st
  | None =>
      best_ninliers st' = best_ninliers st ∧
      best_model st' = best_model st ∧ best_mask st' = best_mask st
  end.
Proof.
  unfold trial_update. destruct c as [[model cx]|].
  - case_bool_decide as Hgt; intros Hrun; [|by simplify_eq].
    res_inv Hrun. res_inv Hrun. simplify_eq. simpl.
    apply copy_cells_Ok_inv in Ha as (-> & ? & ?).
    apply copy_cells_Ok_inv in Ha0 as (-> & ? & ?). done.
  - intros Hrun. by simplify_eq.
Qed.

Lemma in_step_update st0 st sel g tmp c st' :
  this_in_step st0 st sel →
  this_update st g tmp c = Ok st' →
  this_in_step st0 st' (select sel (log_entry tmp c)).
Proof.
  intros (Hb & Hlm & Hlk & Hcur) Hrun.
  apply trial_update_Ok_inv in Hrun as (_ & _ & Hc).
  unfold in_step, holds, select in *.
  destruct c as [[model cx]|]; simpl.
  - rewrite <- Hb. case_bool_decide as Hgt; simpl.
    + destruct Hc as (Hc1 & Hc2 & Hc3 & ? & ? & ? & ?).
      rewrite Hc1, Hc2, Hc3, !overwrite_length, !overwrite_take by lia.
      done.
    + destruct Hc as (Hc1 & Hc2 & Hc3). rewrite Hc1, Hc2, Hc3. done.
  - destruct Hc as (Hc1 & Hc2 & Hc3). rewrite Hc1, Hc2, Hc3. done.
Qed.

Lemma run_trials_S k st :
  these_trials (S k) st = (st' ← this_trial st; these_trials k st').
Proof.
  unfold run_trials. simpl. destruct (this_trial st); [|done].
  rewrite !bind_Ok. apply for_iter_shift.
Qed.

Lemma run_trials_snoc k st :
  these_trials (S k) st = (st' ← these_trials k st; this_trial st').
Proof. unfold run_trials. apply for_iter_snoc. Qed.

(** The loop over the trials selects among the trials that are scored. *)
Lemma run_trials_select st0 k st sel st' :
  this_in_step st0 st sel →
  these_trials k st = Ok st' →
  ∃ log, these_scored k (st_rand st) (tmp_mask st) = Ok log ∧
    this_in_step st0 st' (select sel log).
Proof.
  revert st sel. induction k as [|k IH]; intros st sel Hstep Hrun.
  - unfold run_trials in Hrun. simpl in Hrun. simplify_eq.
    by exists [].
  - rewrite run_trials_S, trial_eq in Hrun. res_inv Hrun. res_inv Ha.
    destruct a0 as [[g tmp] c]. simpl.
    rewrite Ha0, bind_Ok.
    pose proof (in_step_update _ _ _ _ _ _ _ Hstep Ha) as Hstep'.
    apply trial_update_Ok_inv in Ha as (Hg & Htmp & _).
    destruct (IH _ _ Hstep' Hrun) as (log & Hlog & Hfinal).
    rewrite Hg, Htmp in Hlog. rewrite Hlog, bind_Ok.
    rewrite <- select_app in Hfinal.
    destruct c as [[model cx]|]; by eexists.
Qed.

(** A trial never lowers the best count, leaves the best model and the
    best mask alone unless it raises the count, and raises the count only
    to the count of the model it scored. *)
Lemma trial_monotone st st' :
  this_trial st = Ok st' →
  best_ninliers st ≤ best_ninliers st' ∧
  (best_ninliers st' = best_ninliers st →
   best_model st' = best_model st ∧ best_mask st' = best_mask st) ∧
  (best_ninliers st < best_ninliers st' →
   ∃ g tmp model,
     this_candidate (st_rand st) (tmp_mask st) =
     Ok (g, tmp, Some (model, best_ninliers st'))).
Proof.
  rewrite trial_eq. intros Hrun. res_inv Hrun. destruct a as [[g tmp] c].
  apply trial_update_Ok_inv in Hrun as (_ & _ & Hc).
  destruct c as [[model cx]|]; [case_bool_decide|].
  - destruct Hc as (-> & _). split; [lia|]. split; [lia|]. eauto.
  - destruct Hc as (-> & -> & ->). split; [lia|]. split; [done|]. lia.
  - destruct Hc as (-> & -> & ->). split; [lia|]. split; [done|]. lia.
Qed.

(** The states after fewer trials. *)
Lemma run_trials_prefix k j st0 st :
  these_trials k st0 = Ok st → (j ≤ k)%nat →
  ∃ sj, these_trials j st0 = Ok sj.
Proof.
  revert st. induction k as [|k IH]; intros st Hrun Hj.
  - replace j with O by lia. eauto.
  - destruct (decide (j = S k)) as [->|]; [eauto|].
    rewrite run_trials_snoc in Hrun. res_inv Hrun.
    apply (IH a); [done | lia].
Qed.

End Best.

(** ** The whole search *)

Section WholeSearch.

Context {U : Type}.
Variable mev : list (cell float) → list float → Z → U → float.
Variable mgen : list (cell float) → list float → U → list (cell float).
Variable macc : option (list (cell float) → U → bool).
Variable rand : nat → Z.
Variable xmalloc_ok : Z → bool.
Variable m : memory.
Variables datadim n modeldim nfit ntrials min_inliers : Z.
Variable max_error : float.
Variable usr : U.

Local Abbreviation the_trials :=
  (run_trials mev mgen macc rand (m_data m) datadim n modeldim nfit max_error
     usr).
Local Abbreviation the_search :=
  (ransac mev mgen macc rand xmalloc_ok m datadim n modeldim nfit ntrials
     min_inliers max_error usr).

(** [ransac] is its three parts one after the other. *)
Lemma ransac_eq :
  the_search =
  (st ← ransac_init xmalloc_ok n modeldim (m_rand m);
   st ← the_trials (Z.to_nat ntrials) st;
   ransac_finish n modeldim min_inliers m st).
Proof. unfold ransac, for_loop, run_trials. by rewrite Z.sub_0_r. Qed.

Lemma ransac_init_Ok_inv g st0 :
  ransac_init xmalloc_ok n modeldim g = Ok st0 →
  0 ≤ modeldim ∧ xmalloc_ok (n * sizeof_bool) = true ∧
  st0 = TrialState g 0 (replicate (Z.to_nat modeldim) None)
          (replicate (Z.to_nat n) None) (replicate (Z.to_nat n) None).
Proof.
  unfold ransac_init, xmalloc_mask, vla. intros Hrun.
  case_bool_decide; [|done]. destruct (xmalloc_ok _); [|done].
  simpl in Hrun. by simplify_eq.
Qed.

(** The two buffers of the best record keep their sizes. *)
Lemma run_trials_lengths k st0 st :
  ransac_init xmalloc_ok n modeldim (m_rand m) = Ok st0 →
  the_trials k st0 = Ok st →
  length (best_model st) = Z.to_nat modeldim ∧
  length (best_mask st) = Z.to_nat n.
Proof.
  intros Hinit Hrun. apply ransac_init_Ok_inv in Hinit as (_ & _ & Hst0).
  destruct (run_trials_select mev mgen macc rand (m_data m) datadim n modeldim
              nfit max_error usr st0 k st0 (best_ninliers st0, None) st)
    as (log & _ & _ & Hm & Hk & _); [by unfold in_step | done |].
  rewrite Hm, Hk, Hst0. simpl. by rewrite !length_replicate.
Qed.

(** The outcome of [ransac] once the trials are over. *)
Lemma ransac_finish_spec st :
  length (best_model st) = Z.to_nat modeldim →
  length (best_mask st) = Z.to_nat n →
  (best_ninliers st >= min_inliers →
   fits modeldim (m_out_model m) → fits n (m_out_mask m) →
   ransac_finish n modeldim min_inliers m st =
   Ok (best_ninliers st,
       Memory (m_data m)
         (overwrite n (best_mask st) <$> m_out_mask m)
         (overwrite modeldim (best_model st) <$> m_out_model m)
         (st_rand st))) ∧
  (best_ninliers st < min_inliers →
   ransac_finish n modeldim min_inliers m st =
   Ok (0, Memory (m_data m) (m_out_mask m) (m_out_model m) (st_rand st))).
Proof.
  intros Hlm Hlk. unfold ransac_finish. split.
  - intros Hge Hfm Hfk. rewrite bool_decide_eq_true_2 by done.
    rewrite !copy_out_total by (done || lia). done.
  - intros Hlt. by rewrite bool_decide_eq_false_2 by lia.
Qed.

Lemma ransac_finish_Ok_inv st r m' :
  ransac_finish n modeldim min_inliers m st = Ok (r, m') →
  m_data m' = m_data m ∧ m_rand m' = st_rand st ∧
  (best_ninliers st < min_inliers →
   r = 0 ∧ m_out_mask m' = m_out_mask m ∧ m_out_model m' = m_out_model m) ∧
  (best_ninliers st >= min_inliers →
   r = best_ninliers st ∧
   m_out_mask m' = overwrite n (best_mask st) <$> m_out_mask m ∧
   m_out_model m' = overwrite modeldim (best_model st) <$> m_out_model m).
Proof.
  unfold ransac_finish. case_bool_decide as Hge; intros Hrun.
  - res_inv Hrun. res_inv Hrun. simplify_eq. simpl.
    apply copy_out_Ok_inv in Ha as [-> _].
    apply copy_out_Ok_inv in Ha0 as [-> _].
    split; [done|]. split; [done|]. split; [lia | done].
  - simplify_eq. simpl. split; [done|]. split; [done|]. split; [done | lia].
Qed.

End WholeSearch.

(** ** Main results on the search *)

Section Results.

Context {U : Type}.
Variable mev : list (cell float) → list float → Z → U → float.
Variable mgen : list (cell float) → list float → U → list (cell float).
Variable rand : nat → Z.
Variable xmalloc_ok : Z → bool.
Variables datadim n modeldim nfit : Z.
Variable max_error : float.
Variable usr : U.

(** C1.  Once the trials are over, [ransac] compares the best count with
    [min_inliers]: when the count reaches it, the function returns that
    count and copies the best model and the best mask into the output
    buffers the caller gave; otherwise it returns [0] and leaves them as
    they were, whatever the best record holds. *)
Theorem ransac_min_inliers_threshold macc (m : memory) (ntrials min_inliers : Z)
    (st0 st : trial_state) :
  ransac_init xmalloc_ok n modeldim (m_rand m) = Ok st0 →
  run_trials mev mgen macc rand (m_data m) datadim n modeldim nfit max_error
    usr (Z.to_nat ntrials) st0 = Ok st →
  (best_ninliers st >= min_inliers →
   fits modeldim (m_out_model m) → fits n (m_out_mask m) →
   ransac mev mgen macc rand xmalloc_ok m datadim n modeldim nfit ntrials
     min_inliers max_error usr =
   Ok (best_ninliers st,
       Memory (m_data m)
         (overwrite n (best_mask st) <$> m_out_mask m)
         (overwrite modeldim (best_model st) <$> m_out_model m)
         (st_rand st))) ∧
  (best_ninliers st < min_inliers →
   ransac mev mgen macc rand xmalloc_ok m datadim n modeldim nfit ntrials
     min_inliers max_error usr =
   Ok (0, Memory (m_data m) (m_out_mask m) (m_out_model m) (st_rand st))).
Proof.
  intros Hinit Hrun.
  destruct (run_trials_lengths _ _ _ _ _ _ _ _ _ _ _ _ _ _ _ Hinit Hrun)
    as [Hlm Hlk].
  rewrite ransac_eq, Hinit, bind_Ok, Hrun, bind_Ok.
  by apply ransac_finish_spec.
Qed.

(** C2.  The best count starts at [0]; no trial lowers it; a trial that
    does not raise it leaves the best model and the best mask alone, and a
    trial that raises it raises it to the count of the model it scored;
    after [k] trials the best count is the greatest count among the
    trials that were scored, and the record is that of the earliest
    scored trial with that count. *)
Theorem best_so_far_record macc (data : list float) (g : rng) (k : nat)
    (st0 st : trial_state) :
  ransac_init xmalloc_ok n modeldim g = Ok st0 →
  run_trials mev mgen macc rand data datadim n modeldim nfit max_error usr
    k st0 = Ok st →
  best_ninliers st0 = 0 ∧
  (∀ j, (j < k)%nat →
     ∃ sj sj',
       run_trials mev mgen macc rand data datadim n modeldim nfit max_error
         usr j st0 = Ok sj ∧
       trial mev mgen macc rand data datadim n modeldim nfit max_error usr
         sj = Ok sj' ∧
       run_trials mev mgen macc rand data datadim n modeldim nfit max_error
         usr (S j) st0 = Ok sj' ∧
       best_ninliers sj ≤ best_ninliers sj' ∧
       (best_ninliers sj' = best_ninliers sj →
        best_model sj' = best_model sj ∧ best_mask sj' = best_mask sj) ∧
       (best_ninliers sj < best_ninliers sj' →
        ∃ g' tmp model,
          trial_candidate mev mgen macc rand data datadim n modeldim nfit
            max_error usr (st_rand sj) (tmp_mask sj) =
          Ok (g', tmp, Some (model, best_ninliers sj')))) ∧
  ∃ log,
    scored_trials mev mgen macc rand data datadim n modeldim nfit max_error
      usr k (st_rand st0) (tmp_mask st0) = Ok log ∧
    (∀ e, e ∈ log → sc_count e ≤ best_ninliers st) ∧
    (best_ninliers st = 0 ∨ ∃ e, e ∈ log ∧ sc_count e = best_ninliers st) ∧
    (∀ pre e post,
       log = pre ++ e :: post →
       sc_count e = best_ninliers st → 0 < best_ninliers st →
       (∀ e', e' ∈ pre → sc_count e' < best_ninliers st) →
       holds n modeldim st e).
Proof.
  intros Hinit Hrun.
  assert (best_ninliers st0 = 0) as Hzero.
  { by apply ransac_init_Ok_inv in Hinit as (_ & _ & ->). }
  split; [done|]. split.
  - intros j Hj.
    destruct (run_trials_prefix _ _ _ _ _ _ _ _ _ _ _ _ (S j) _ _ Hrun)
      as [sj' Hsj']; [lia|].
    pose proof Hsj' as Hsnoc. rewrite run_trials_snoc in Hsnoc.
    res_inv Hsnoc. exists a, sj'. split; [done|]. split; [done|].
    split; [done|]. by apply trial_monotone in Hsnoc.
  - destruct (run_trials_select mev mgen macc rand data datadim n modeldim
                nfit max_error usr st0 k st0 (0, None) st)
      as (log & Hlog & Hstep); [by unfold in_step | done |].
    rewrite select_spec in Hstep. destruct Hstep as (Hbest & _ & _ & Hcur).
    simpl in Hbest, Hcur. exists log. split; [done|]. rewrite Hbest. split.
    { intros e He. by apply max_from_upper. }
    split; [apply max_from_attained|].
    intros pre e post Hdec He Hpos Hpre.
    rewrite bool_decide_eq_true_2 in Hcur by lia.
    assert (find_count (max_from 0 log) log = Some e) as Hfind.
    { apply find_count_Some. exists pre, post. split; [done|]. split; [done|].
      intros e' He'. specialize (Hpre e' He'). lia. }
    by rewrite Hfind in Hcur.
Qed.

(** C6.  A trial whose model the acceptance predicate rejects ends at
    once: whatever the evaluation function, it leaves the best record and
    the scratch mask as they were and only the generator has moved on; so
    when the predicate rejects every model the best count stays [0] and
    [ransac] returns [0].  Without a predicate a trial that ends has
    scored the model it generated. *)
Theorem rejected_trial_discarded :
  (∀ f data st indices x g,
     draw_sample rand data datadim n nfit (st_rand st) = Ok (indices, x, g) →
     0 ≤ modeldim →
     f (mgen (replicate (Z.to_nat modeldim) None) x usr) usr = false →
     ∀ mev',
       trial mev' mgen (Some f) rand data datadim n modeldim nfit max_error
         usr st =
       Ok (TrialState g (best_ninliers st) (best_model st) (best_mask st)
             (tmp_mask st))) ∧
  (∀ f m ntrials min_inliers r m',
     (∀ model u, f model u = false) →
     ransac mev mgen (Some f) rand xmalloc_ok m datadim n modeldim nfit
       ntrials min_inliers max_error usr = Ok (r, m') →
     r = 0) ∧
  (∀ data st st',
     trial mev mgen None rand data datadim n modeldim nfit max_error usr st =
     Ok st' →
     ∃ indices x cx,
       draw_sample rand data datadim n nfit (st_rand st) =
         Ok (indices, x, st_rand st') ∧
       ransac_trial mev (tmp_mask st) data
         (mgen (replicate (Z.to_nat modeldim) None) x usr) max_error datadim
         n usr = Ok (tmp_mask st', cx)).
Proof.
  split; [|split].
  - intros f data st indices x g Hsample Hdim Hrej mev'.
    unfold trial, vla, rejected. rewrite Hsample, bind_Ok.
    rewrite bool_decide_eq_true_2 by done. rewrite bind_Ok. cbv zeta.
    by rewrite Hrej.
  - intros f m ntrials min_inliers r m' Hrej Hrun.
    rewrite ransac_eq in Hrun. res_inv Hrun. res_inv Hrun.
    assert (best_ninliers a0 = 0) as Hbest.
    { apply ransac_init_Ok_inv in Ha as (_ & _ & Hst0).
      assert (best_ninliers a = 0) as Hzero by by rewrite Hst0.
      clear Hst0 Hrun. revert a a0 Hzero Ha0.
      induction (Z.to_nat ntrials) as [|k IH]; intros st0 st Hzero Hk.
      - unfold run_trials in Hk. simpl in Hk. by simplify_eq.
      - rewrite run_trials_S in Hk. res_inv Hk.
        apply (IH a st); [|done].
        rewrite trial_eq in Ha. res_inv Ha. destruct a0 as [[g tmp] c].
        assert (c = None) as ->.
        { unfold trial_candidate in Ha0. res_inv Ha0.
          destruct a0 as [[indices x] g']. res_inv Ha0. cbv zeta in Ha0.
          unfold rejected in Ha0. rewrite Hrej in Ha0. simpl in Ha0.
          by simplify_eq. }
        apply trial_update_Ok_inv in Ha as (_ & _ & -> & _). done. }
    apply ransac_finish_Ok_inv in Hrun as (_ & _ & Hlt & Hge).
    destruct (decide (best_ninliers a0 < min_inliers)) as [Hc|Hc].
    + by apply Hlt.
    + destruct Hge as [-> _]; [lia | done].
  - intros data st st' Hrun. unfold trial in Hrun. res_inv Hrun.
    destruct a as [[indices x] g]. res_inv Hrun.
    unfold vla in Ha0. case_bool_decide; [|done]. simplify_eq.
    cbv zeta in Hrun. simpl in Hrun. res_inv Hrun. destruct a as [tmp cx].
    exists indices, x, cx.
    case_bool_decide; [res_inv Hrun; res_inv Hrun|]; by simplify_eq.
Qed.

(** C8.  [ransac] leaves the data array as it was; when the best count is
    below [min_inliers] it returns [0] and leaves both output buffers as
    they were, so that a buffer is different after the call only when the
    best count has reached [min_inliers]. *)
Theorem ransac_frame macc (m : memory) (ntrials min_inliers : Z) (r : Z)
    (m' : memory) :
  ransac mev mgen macc rand xmalloc_ok m datadim n modeldim nfit ntrials
    min_inliers max_error usr = Ok (r, m') →
  m_data m' = m_data m ∧
  ∃ st0 st,
    ransac_init xmalloc_ok n modeldim (m_rand m) = Ok st0 ∧
    run_trials mev mgen macc rand (m_data m) datadim n modeldim nfit
      max_error usr (Z.to_nat ntrials) st0 = Ok st ∧
    (best_ninliers st < min_inliers →
     r = 0 ∧ m_out_mask m' = m_out_mask m ∧ m_out_model m' = m_out_model m) ∧
    (m_out_mask m' ≠ m_out_mask m ∨ m_out_model m' ≠ m_out_model m →
     best_ninliers st >= min_inliers ∧ r = best_ninliers st).
Proof.
  intros Hrun. rewrite ransac_eq in Hrun. res_inv Hrun. res_inv Hrun.
  apply ransac_finish_Ok_inv in Hrun as (Hdata & _ & Hlt & Hge).
  split; [done|]. exists a, a0. split; [done|]. split; [done|].
  split; [done|]. intros Hchanged.
  destruct (decide (best_ninliers a0 < min_inliers)) as [Hc|Hc].
  - destruct (Hlt Hc) as (_ & ? & ?). by destruct Hchanged.
  - split; [lia|]. apply Hge. lia.
Qed.

(** C10.  [random_index(a, b)] returns [a + rand() % (b - a)] and returns
    only when [a < b]; with [b = a] the remainder is taken by zero.  In
    [ransac] the range is [[0, n)]: the search divides by zero only when
    [n = 0], and with [n = 0], a sample of at least one point and at least
    one trial the first draw of the sampler does divide by zero. *)
Theorem random_index_needs_data :
  (∀ a b g r g',
     random_index rand a b g = Ok (r, g') →
     a < b ∧ r = a + Z.rem (rand g) (b - a) ∧ a ≤ r < b) ∧
  (∀ a g, random_index rand a a g = Err DivisionByZero) ∧
  (∀ macc m ntrials min_inliers,
     ransac mev mgen macc rand xmalloc_ok m datadim n modeldim nfit ntrials
       min_inliers max_error usr = Err DivisionByZero →
     n = 0) ∧
  (∀ macc m ntrials min_inliers,
     n = 0 → 1 ≤ nfit → 1 ≤ ntrials → 0 ≤ modeldim →
     xmalloc_ok (0 * sizeof_bool) = true →
     ransac mev mgen macc rand xmalloc_ok m datadim n modeldim nfit ntrials
       min_inliers max_error usr = Err DivisionByZero).
Proof.
  split; [|split; [|split]].
  - intros a b g r g' Hrun.
    apply random_index_Ok_inv in Hrun as (? & ? & _ & _). split; [lia|done].
  - apply random_index_zero_range.
  - intros macc m ntrials min_inliers Hrun.
    by apply ransac_errors in Hrun as [_ ->].
  - intros macc m ntrials min_inliers -> Hnfit Hntrials Hdim Halloc.
    assert (∀ st,
              trial mev mgen macc rand (m_data m) datadim 0 modeldim nfit
                max_error usr st = Err DivisionByZero) as Htrial.
    { intros st. unfold trial, draw_sample.
      rewrite (vla_Ok nfit) by lia.
      by rewrite bind_Ok, fill_random_indices_empty_range. }
    unfold ransac, ransac_init, xmalloc_mask, vla.
    rewrite bool_decide_eq_true_2 by done. rewrite Halloc. simpl.
    unfold for_loop. destruct (Z.to_nat (ntrials - 0)) as [|k] eqn:Hk; [lia|].
    simpl. by rewrite Htrial.
Qed.

End Results.

Lemma ransac_min_inliers_threshold_witness :
  ransac ex_mev ex_mgen None ex_rand_id ex_xmalloc_ok ex_memory 1 4 1 2 3 1
    ex_f2 () =
    Ok (2, Memory ex_data (Some [Some true; Some false; Some false; Some true])
             (Some [Some ex_f1]) 6%nat) ∧
  ransac ex_mev ex_mgen None ex_rand_id ex_xmalloc_ok ex_memory 1 4 1 2 3 3
    ex_f2 () =
    Ok (0, Memory ex_data (Some [None; None; None; None]) (Some [None]) 6%nat).
Proof.
  assert (ransac_init ex_xmalloc_ok 4 1 (m_rand ex_memory) = Ok ex_st0)
    as Hinit by reflexivity.
  assert (run_trials ex_mev ex_mgen None ex_rand_id (m_data ex_memory) 1 4 1 2
            ex_f2 () (Z.to_nat 3) ex_st0 = Ok ex_st3) as Hrun by reflexivity.
  split.
  - apply (proj1 (ransac_min_inliers_threshold ex_mev ex_mgen ex_rand_id
                    ex_xmalloc_ok 1 4 1 2 ex_f2 () None ex_memory 3 1
                    ex_st0 ex_st3 Hinit Hrun)); simpl; lia.
  - apply (proj2 (ransac_min_inliers_threshold ex_mev ex_mgen ex_rand_id
                    ex_xmalloc_ok 1 4 1 2 ex_f2 () None ex_memory 3 3
                    ex_st0 ex_st3 Hinit Hrun)); simpl; lia.
Defined.

Lemma best_so_far_record_witness :
  ransac_init ex_xmalloc_ok 4 1 0%nat = Ok ex_st0 ∧
  run_trials ex_mev ex_mgen None ex_rand_id ex_data 1 4 1 2 ex_f2 () 3
    ex_st0 = Ok ex_st3 ∧
  best_ninliers ex_st0 = 0 ∧
  ∃ log,
    scored_trials ex_mev ex_mgen None ex_rand_id ex_data 1 4 1 2 ex_f2 () 3
      (st_rand ex_st0) (tmp_mask ex_st0) = Ok log ∧
    (∀ e, e ∈ log → sc_count e ≤ best_ninliers ex_st3).
Proof.
  split; [reflexivity|]. split; [reflexivity|].
  destruct (best_so_far_record ex_mev ex_mgen ex_rand_id ex_xmalloc_ok 1 4 1 2
              ex_f2 () None ex_data 0%nat 3 ex_st0 ex_st3 eq_refl eq_refl)
    as (Hzero & _ & log & Hlog & Hupper & _).
  split; [exact Hzero|]. exists log. split; [exact Hlog | exact Hupper].
Defined.

Lemma rejected_trial_discarded_witness :
  draw_sample ex_rand_id ex_data 1 4 2 (st_rand ex_st0) =
    Ok ([0; 1], [ex_f1; ex_f2], 2%nat) ∧
  trial ex_mev ex_mgen (Some ex_reject_all) ex_rand_id ex_data 1 4 1 2 ex_f2
    () ex_st0 =
    Ok (TrialState 2%nat 0 [None] [None; None; None; None]
          [None; None; None; None]).
Proof.
  split; [reflexivity|].
  apply (proj1 (rejected_trial_discarded ex_mev ex_mgen ex_rand_id
                  ex_xmalloc_ok 1 4 1 2 ex_f2 ())
           ex_reject_all ex_data ex_st0 [0; 1] [ex_f1; ex_f2] 2%nat);
    [reflexivity | lia | reflexivity].
Defined.

Lemma ransac_frame_witness :
  ransac ex_mev ex_mgen None ex_rand_id ex_xmalloc_ok ex_memory 1 4 1 2 3 3
    ex_f2 () =
    Ok (0, Memory ex_data (Some [None; None; None; None]) (Some [None]) 6%nat) ∧
  m_data (Memory ex_data (Some [None; None; None; None]) (Some [None]) 6%nat) =
    m_data ex_memory.
Proof.
  split; [reflexivity|].
  apply (ransac_frame ex_mev ex_mgen ex_rand_id ex_xmalloc_ok 1 4 1 2 ex_f2 ()
           None ex_memory 3 3 0).
  reflexivity.
Defined.

Lemma random_index_needs_data_witness :
  random_index ex_rand_id 0 4 5%nat = Ok (1, 6%nat) ∧
  0 < 4 ∧
  ransac ex_mev ex_mgen None ex_rand_id ex_xmalloc_ok
    (Memory [] None None 0%nat) 1 0 1 2 3 1 ex_f2 () = Err DivisionByZero.
Proof.
  pose proof (random_index_needs_data ex_mev ex_mgen ex_rand_id ex_xmalloc_ok
                1 0 1 2 ex_f2 ()) as (Hret & _ & _ & Hzero).
  split; [reflexivity|]. split.
  - apply (Hret 0 4 5%nat 1 6%nat). reflexivity.
  - apply Hzero; [reflexivity | lia | lia | lia | reflexivity].
Defined.

(** * Further properties *)

(** ** The trial evaluator on its own *)

Section TrialEvaluatorAlone.

Context {U : Type}.
Variable mev : list (cell float) → list float → Z → U → float.
Variable data : list float.
Variable model : list (cell float).
Variable max_error : float.
Variable datadim : Z.
Variable usr : U.

(** X1.  [ransac_trial] writes the first [n] entries of the mask and
    nothing else: the buffer keeps its length and the entries from [n] on
    keep their content; the count it returns lies between [0] and [n]. *)
Theorem ransac_trial_frame out_mask n mask cx :
  ransac_trial mev out_mask data model max_error datadim n usr = Ok (mask, cx) →
  length mask = length out_mask ∧
  drop (Z.to_nat n) mask = drop (Z.to_nat n) out_mask ∧
  0 ≤ cx ≤ Z.max 0 n.
Proof.
  intros Hrun. apply ransac_trial_scored in Hrun
    as (Hlen & Hcx & _ & Hrest & _). simpl in Hlen, Hcx, Hrest.
  split; [done|]. split.
  - apply list_eq. intros i. rewrite !lookup_drop.
    specialize (Hrest (Z.of_nat (Z.to_nat n + i))).
    rewrite Nat2Z.id in Hrest. apply Hrest. lia.
  - rewrite Hcx. pose proof (count_true_bounds (Z.max 0 n) mask). lia.
Qed.

(** X2.  What [ransac_trial] returns does not depend on what the mask
    buffer held before: a run that returns on one buffer returns on every
    buffer with room for [n] entries, with the same count and the same
    first [n] entries. *)
Theorem ransac_trial_scratch out1 out2 n mask1 cx :
  ransac_trial mev out1 data model max_error datadim n usr = Ok (mask1, cx) →
  n ≤ Z.of_nat (length out2) →
  ∃ mask2,
    ransac_trial mev out2 data model max_error datadim n usr = Ok (mask2, cx) ∧
    take (Z.to_nat n) mask2 = take (Z.to_nat n) mask1.
Proof.
  intros Hrun1 Hlen2.
  apply ransac_trial_scored in Hrun1
    as (Hlen1 & Hcx1 & Hmask1 & _ & Hpos & Hroom). simpl in *.
  destruct (ransac_trial_total mev data model max_error datadim usr out2 n)
    as (mask2 & cx2 & Hrun2); [done| |].
  { intros i Hi. apply Hpos. lia. }
  pose proof Hrun2 as Hscored.
  apply ransac_trial_scored in Hscored as (Hl2 & Hcx2 & Hmask2 & _).
  simpl in *.
  assert (take (Z.to_nat n) mask2 = take (Z.to_nat n) mask1) as Htake.
  { apply list_eq. intros i. destruct (decide (i < Z.to_nat n)%nat) as [Hi|Hi].
    - rewrite !lookup_take_lt by done.
      specialize (Hmask1 (Z.of_nat i)). specialize (Hmask2 (Z.of_nat i)).
      rewrite Nat2Z.id in Hmask1, Hmask2.
      rewrite Hmask1, Hmask2 by lia. done.
    - rewrite !lookup_take_ge by lia. done. }
  exists mask2. split; [|done]. rewrite Hrun2. f_equal. f_equal.
  rewrite Hcx1, Hcx2. unfold count_true.
  replace (Z.to_nat (Z.max 0 n)) with (Z.to_nat n) by lia. by rewrite Htake.
Qed.


End TrialEvaluatorAlone.

Lemma ransac_trial_frame_witness :
  ransac_trial ex_mev [None; None; Some true] ex_data [] ex_f2 1 2 () =
    Ok ([Some true; Some false; Some true], 1) ∧
  drop (Z.to_nat 2) [Some true; Some false; Some true] =
    drop (Z.to_nat 2) [None; None; Some true].
Proof.
  split; [reflexivity|].
  apply (ransac_trial_frame ex_mev ex_data [] ex_f2 1 ()
           [None; None; Some true] 2 [Some true; Some false; Some true] 1).
  reflexivity.
Defined.

Lemma ransac_trial_scratch_witness :
  ∃ mask2,
    ransac_trial ex_mev [Some false; Some true; Some true] ex_data [] ex_f2 1
      2 () = Ok (mask2, 1) ∧
    take (Z.to_nat 2) mask2 = take (Z.to_nat 2) [Some true; Some false].
Proof.
  apply (ransac_trial_scratch ex_mev ex_data [] ex_f2 1 () [None; None]
           [Some false; Some true; Some true] 2 [Some true; Some false] 1).
  - reflexivity.
  - simpl. lia.
Defined.


(** ** The distinctness check and the sampler on their own *)

(** X4.  On a buffer with at least [n] cells [are_different] returns; it
    tells exactly whether the first [n] cells are pairwise distinct, and
    leaves those cells in ascending order, with the same values as
    before, and the rest of the buffer as it was. *)
Theorem are_different_checks_and_sorts (t : list Z) (n : Z) :
  0 ≤ n ≤ Z.of_nat (length t) →
  ∃ d t',
    are_different t n = Ok (d, t') ∧
    (d = true ↔ NoDup (take (Z.to_nat n) t)) ∧
    Sorted Z.le (take (Z.to_nat n) t') ∧
    take (Z.to_nat n) t' ≡ₚ take (Z.to_nat n) t ∧
    drop (Z.to_nat n) t' = drop (Z.to_nat n) t ∧
    length t' = length t.
Proof.
  intros Hn. eexists _, _. split; [by apply are_different_spec|].
  assert (length (sort_ints (take (Z.to_nat n) t)) = Z.to_nat n) as Hs.
  { rewrite sort_ints_length, length_take. lia. }
  rewrite take_app_length', drop_app_length' by done.
  split; [apply bool_decide_eq_true|]. split; [apply sort_ints_Sorted|].
  split; [apply sort_ints_Permutation|]. split; [done|].
  rewrite length_app, Hs, length_drop. lia.
Qed.

Lemma are_different_checks_and_sorts_witness :
  0 ≤ 3 ≤ Z.of_nat (length [5; 2; 5; 9]) ∧
  ∃ d t', are_different [5; 2; 5; 9] 3 = Ok (d, t') ∧
    (d = true ↔ NoDup (take (Z.to_nat 3) [5; 2; 5; 9])) ∧
    Sorted Z.le (take (Z.to_nat 3) t').
Proof.
  assert (0 ≤ 3 ≤ Z.of_nat (length [5; 2; 5; 9])) as Hn by (simpl; lia).
  split; [exact Hn|].
  destruct (are_different_checks_and_sorts [5; 2; 5; 9] 3 Hn)
    as (d & t' & Hrun & Hd & Hsorted & _).
  exists d, t'. split; [exact Hrun|]. split; [exact Hd | exact Hsorted].
Defined.

Section SamplerAlone.

Variable rand : nat → Z.

(** The search for a distinct batch stops at the first one. *)
Lemma first_distinct_batch_at (k n : nat) (a b : Z) (g : rng) (j : nat) :
  (j < k)%nat →
  (∀ i, (i < j)%nat → ¬ NoDup (batch_values rand a b (g + i * n)%nat n)) →
  NoDup (batch_values rand a b (g + j * n)%nat n) →
  first_distinct_batch rand k n a b g =
  Some (sort_ints (batch_values rand a b (g + j * n)%nat n),
        (g + S j * n)%nat).
Proof.
  revert g j. induction k as [|k IH]; intros g j Hj Hbefore Hat; [lia|].
  simpl. destruct j as [|j].
  - replace (g + 0 * n)%nat with g in * by lia.
    rewrite bool_decide_eq_true_2 by done. do 2 f_equal. lia.
  - rewrite bool_decide_eq_false_2.
    + rewrite (IH (g + n)%nat j); [| lia | |].
      * by replace (g + n + j * n)%nat with (g + S j * n)%nat by lia;
          replace (g + n + S j * n)%nat with (g + S (S j) * n)%nat by lia.
      * intros i Hi. specialize (Hbefore (S i) ltac:(lia)).
        by replace (g + n + i * n)%nat with (g + S i * n)%nat by lia.
      * by replace (g + n + j * n)%nat with (g + S j * n)%nat by lia.
    + specialize (Hbefore O ltac:(lia)).
      by replace (g + 0 * n)%nat with g in Hbefore by lia.
Qed.

(** X5.  Under its preconditions (room for [n] indices, a non-empty range
    of representable values, a generator that returns non-negative
    values) the sampler returns the first batch of [n] draws that is
    pairwise distinct, when that is one of the first nine: its values in
    ascending order, the rest of the buffer untouched, and the generator
    advanced by exactly the draws of the batches up to that one. *)
Theorem fill_random_indices_first_distinct idx n a b g (j : nat) :
  0 ≤ n ≤ Z.of_nat (length idx) → bounds_ok a b → rand_nonneg rand →
  (j < 9)%nat →
  (∀ i, (i < j)%nat →
     ¬ NoDup (batch_values rand a b (g + i * Z.to_nat n)%nat (Z.to_nat n))) →
  NoDup (batch_values rand a b (g + j * Z.to_nat n)%nat (Z.to_nat n)) →
  fill_random_indices rand idx n a b g =
  Ok (sort_ints (batch_values rand a b (g + j * Z.to_nat n)%nat (Z.to_nat n))
        ++ drop (Z.to_nat n) idx,
      (g + S j * Z.to_nat n)%nat).
Proof.
  intros Hn Hab Hr Hj Hbefore Hat.
  rewrite fill_random_indices_spec by done.
  by rewrite (first_distinct_batch_at _ _ _ _ _ j).
Qed.

(** X6.  Asked for more indices than the range [[a, b)] holds, the
    sampler always fails with its message: it neither returns nor goes
    round for ever. *)
Theorem fill_random_indices_small_range idx n a b g :
  0 ≤ n ≤ Z.of_nat (length idx) → bounds_ok a b → rand_nonneg rand →
  b - a < n →
  fill_random_indices rand idx n a b g = Err (Fatal "could not generate any model").
Proof.
  intros Hn Hab Hr Hlt. rewrite fill_random_indices_spec by done.
  by rewrite first_distinct_batch_pigeonhole by (done || lia).
Qed.


End SamplerAlone.

Lemma fill_random_indices_first_distinct_witness :
  fill_random_indices ex_rand_late [0; 0; 7] 2 0 3 14%nat =
  Ok ([0; 1; 7], 20%nat).
Proof.
  assert (0 ≤ 2 ≤ Z.of_nat (length [0; 0; 7])) as Hn by (simpl; lia).
  assert (bounds_ok 0 3) as Hab by (unfold bounds_ok, INT_MIN, INT_MAX; lia).
  assert (rand_nonneg ex_rand_late) as Hr.
  { intros k. unfold ex_rand_late. case_bool_decide; lia. }
  apply (fill_random_indices_first_distinct ex_rand_late [0; 0; 7] 2 0 3
           14%nat 2 Hn Hab Hr); [lia | |].
  - intros i Hi Hnd.
    assert (i = 0 ∨ i = 1)%nat as [-> | ->] by lia;
      apply NoDup_cons in Hnd as [Hnot _]; apply Hnot; by left.
  - apply NoDup_cons. split; [|apply NoDup_singleton].
    rewrite list_elem_of_singleton. done.
Defined.

Lemma fill_random_indices_small_range_witness :
  fill_random_indices ex_rand_id [0; 0; 0] 3 0 2 0%nat =
  Err (Fatal "could not generate any model").
Proof.
  apply (fill_random_indices_small_range ex_rand_id [0; 0; 0] 3 0 2 0%nat).
  - simpl. lia.
  - unfold bounds_ok, INT_MIN, INT_MAX. lia.
  - intros k. unfold ex_rand_id. lia.
  - lia.
Defined.


(** ** The search with consistent sizes *)

Section SearchAlone.

Context {U : Type}.
Variable mev : list (cell float) → list float → Z → U → float.
Variable mgen : list (cell float) → list float → U → list (cell float).
Variable macc : option (list (cell float) → U → bool).
Variable rand : nat → Z.
Variable xmalloc_ok : Z → bool.
Variable data : list float.
Variables datadim n modeldim nfit : Z.
Variable max_error : float.
Variable usr : U.

Local Abbreviation one_trial :=
  (trial mev mgen macc rand data datadim n modeldim nfit max_error usr).
Local Abbreviation one_candidate :=
  (trial_candidate mev mgen macc rand data datadim n modeldim nfit max_error
     usr).
Local Abbreviation some_trials :=
  (run_trials mev mgen macc rand data datadim n modeldim nfit max_error usr).
Local Abbreviation some_scored :=
  (scored_trials mev mgen macc rand data datadim n modeldim nfit max_error
     usr).
Local Abbreviation sound :=
  (scored_sound mev mgen macc rand data datadim n modeldim nfit max_error usr).
Local Abbreviation all_sized := (sized n modeldim).
Local Abbreviation good_sizes := (sizes_ok data datadim n modeldim nfit).

(** With indices of data points and room in the sample, gathering the
    sample stays inside the three arrays. *)
Lemma gather_sample_total indices x :
  0 ≤ datadim → n * datadim ≤ Z.of_nat (length data) →
  Z.of_nat (length indices) = nfit →
  Forall (λ r, 0 ≤ r < n) indices →
  Z.of_nat (length x) = nfit * datadim →
  ∃ x', gather_sample data datadim nfit indices x = Ok x'.
Proof.
  intros Hdim Hdata Hidx Hrange Hx. unfold gather_sample, for_loop.
  destruct (for_iter_total (λ _ (x' : list float), length x' = length x)
              (Z.to_nat (nfit - 0)) 0
              (λ j x,
                 for_iter (Z.to_nat (datadim - 0)) 0
                   (λ k x,
                      ij ← load indices j;
                      v ← load data (datadim * ij + k);
                      store x (datadim * j + k) v) x) x)
    as (x' & Hrun & _); [done| |by eauto].
  intros j x1 Hj Hlen1.
  destruct (for_iter_total (λ _ (x' : list float), length x' = length x)
              (Z.to_nat (datadim - 0)) 0
              (λ k x,
                 ij ← load indices j;
                 v ← load data (datadim * ij + k);
                 store x (datadim * j + k) v) x1)
    as (x2 & Hrun & Hlen2); [done| |by eauto].
  intros k x3 Hk Hlen3.
  destruct (load_in_range indices j) as [ij Hij]; [lia|].
  rewrite Hij, bind_Ok. apply load_Ok in Hij as [_ Hij].
  rewrite Forall_forall in Hrange.
  pose proof (Hrange ij (list_elem_of_lookup_2 _ _ _ Hij)) as Hr.
  destruct (load_in_range data (datadim * ij + k)) as [v Hv]; [nia|].
  rewrite Hv, bind_Ok. rewrite store_in_range by nia.
  eexists. split; [done|]. by rewrite length_insert.
Qed.

(** The sample of a trial is drawn, unless the sampler gives up. *)
Lemma draw_sample_outcomes g :
  good_sizes → rand_nonneg rand →
  (∃ indices x g', draw_sample rand data datadim n nfit g = Ok (indices, x, g')) ∨
  draw_sample rand data datadim n nfit g =
  Err (Fatal "could not generate any model").
Proof.
  intros (Hm & Hnfit & Hdim & Hn & Hdata) Hr. unfold draw_sample.
  rewrite (vla_Ok nfit) by done. rewrite bind_Ok.
  destruct (fill_random_indices rand _ nfit 0 n g) as [[idx g']|e] eqn:Hfill.
  - left. rewrite bind_Ok.
    rewrite (vla_Ok (nfit * datadim)) by nia. rewrite bind_Ok.
    apply fill_random_indices_Ok_inv in Hfill
      as (g0 & -> & _ & _ & _ & Hrange & ->).
    rewrite drop_ge, app_nil_r by (rewrite length_replicate; lia).
    destruct (gather_sample_total
                (sort_ints (batch_values rand 0 n g0 (Z.to_nat nfit)))
                (replicate (Z.to_nat (nfit * datadim)) float_zero))
      as [x' Hx']; [done|done| | |..].
    + rewrite sort_ints_length, batch_values_length. lia.
    + by rewrite sort_ints_Permutation.
    + rewrite length_replicate. nia.
    + rewrite Hx'. eauto.
  - right.
    rewrite fill_random_indices_spec in Hfill.
    + destruct (first_distinct_batch _ _ _ _ _ _) as [[s g']|]; [done|].
      unfold fail in Hfill. by simplify_eq.
    + rewrite length_replicate. lia.
    + unfold bounds_ok, INT_MIN. lia.
    + done.
Qed.

(** A trial on buffers of the right sizes ends with buffers of the right
    sizes, unless the sampler gives up or an error fails [e >= 0]. *)
Lemma trial_outcomes st :
  good_sizes → rand_nonneg rand → mgen_sized mgen usr → all_sized st →
  (∃ st', one_trial st = Ok st' ∧ all_sized st') ∨
  (∃ e, one_trial st = Err e ∧ ransac_stop e).
Proof.
  intros Hsizes Hr Hmgen (Hlm & Hlk & Hlt). unfold trial.
  destruct (draw_sample_outcomes (st_rand st) Hsizes Hr)
    as [(indices & x & g' & ->)| ->];
    [|right; eexists; split; [done | by left]].
  destruct Hsizes as (Hm & Hnfit & Hdim & Hn & Hdata).
  rewrite bind_Ok, (vla_Ok modeldim) by done. rewrite bind_Ok. cbv zeta.
  set (model := mgen (replicate (Z.to_nat modeldim) None) x usr).
  assert (length model = Z.to_nat modeldim) as Hlmodel.
  { unfold model. by rewrite Hmgen, length_replicate. }
  destruct (rejected macc usr model).
  { left. eexists. split; [done|]. by split. }
  destruct (ransac_trial mev (tmp_mask st) data model max_error datadim n usr)
    as [[tmp cx]|e] eqn:Htrial.
  - left. rewrite bind_Ok.
    apply ransac_trial_scored in Htrial as (Hltmp & _). simpl in Hltmp.
    case_bool_decide.
    + rewrite !copy_cells_total by lia. rewrite !bind_Ok.
      eexists. split; [done|]. unfold sized. simpl.
      rewrite !overwrite_length by lia. split; [done|]. split; [done|].
      congruence.
    + eexists. split; [done|]. unfold sized. simpl.
      split; [done|]. split; [done|]. congruence.
  - right. exists e. split; [done|]. right.
    unfold ransac_trial, for_loop in Htrial.
    apply (for_iter_Err_inv
             (λ _ (s : list (cell bool) * Z),
                length s.1 = length (tmp_mask st)))
      in Htrial as (j & [mk c] & Hj & Hmk & Hbody); [|done|].
    + simpl in Hmk. cbv zeta in Hbody.
      fold (point_error mev data model datadim usr j) in Hbody.
      fold (inlier mev data model max_error datadim usr j) in Hbody.
      rewrite ransac_trial_body in Hbody by lia.
      destruct (SFleb float_zero _); [done | congruence].
    + intros j [mk c] [mk' c'] Hj Hmk Hbody. simpl in *.
      res_inv Hbody. res_inv Hbody. apply store_Ok in Ha0 as [_ ->].
      res_inv Hbody. simplify_eq. by rewrite length_insert.
Qed.

(** So do any number of trials. *)
Lemma run_trials_outcomes k st :
  good_sizes → rand_nonneg rand → mgen_sized mgen usr → all_sized st →
  (∃ st', some_trials k st = Ok st' ∧ all_sized st') ∨
  (∃ e, some_trials k st = Err e ∧ ransac_stop e).
Proof.
  intros Hsizes Hr Hmgen. revert st. induction k as [|k IH]; intros st Hst.
  - left. by exists st.
  - rewrite run_trials_S.
    destruct (trial_outcomes st Hsizes Hr Hmgen Hst)
      as [(st' & -> & Hst')|(e & -> & He)]; [|right; by exists e].
    rewrite bind_Ok. by apply IH.
Qed.

Lemma trial_candidate_Some_inv g tmp g' tmp' model cx :
  one_candidate g tmp = Ok (g', tmp', Some (model, cx)) →
  sound (Scored model tmp' cx).
Proof.
  unfold trial_candidate. intros Hrun. res_inv Hrun.
  destruct a as [[indices x] g1]. res_inv Hrun.
  unfold vla in Ha0. case_bool_decide; [|done]. simplify_eq.
  cbv zeta in Hrun.
  destruct (rejected macc usr _) eqn:Hrej; [done|].
  res_inv Hrun. destruct a as [tmp1 cx1]. simplify_eq.
  exists g, tmp, indices, x, g'. by repeat split.
Qed.

(** Every scored trial of the log is what some trial produced. *)
Lemma scored_trials_sound k g tmp log :
  some_scored k g tmp = Ok log → Forall sound log.
Proof.
  revert g tmp log. induction k as [|k IH]; intros g tmp log Hrun;
    simpl in Hrun.
  - simplify_eq. constructor.
  - res_inv Hrun. destruct a as [[g1 tmp1] c]. res_inv Hrun.
    apply IH in Ha0. destruct c as [[model cx]|]; simplify_eq; [|done].
    constructor; [|done]. by eapply trial_candidate_Some_inv.
Qed.

(** The mask of a scored trial is the inlier mask of its model, and its
    count is the number of inliers. *)
Lemma sound_count e :
  sound e →
  sc_count e = count_true n (sc_mask e) ∧
  0 ≤ sc_count e ≤ Z.max 0 n ∧
  n ≤ Z.of_nat (length (sc_mask e)) ∧
  ∀ i, 0 ≤ i < n →
    sc_mask e !! Z.to_nat i =
    Some (Some (SFltb (mev (sc_model e) data (i * datadim) usr) max_error)).
Proof.
  intros (g & tmp & indices & x & g' & _ & _ & _ & Hrun).
  apply ransac_trial_scored in Hrun as (Hlen & Hcx & Hmask & _ & _ & Hroom).
  simpl in *.
  assert (sc_count e = count_true n (sc_mask e)) as Hcount.
  { rewrite Hcx. unfold count_true.
    by replace (Z.to_nat (Z.max 0 n)) with (Z.to_nat n) by lia. }
  split; [done|]. split.
  { rewrite Hcount. apply count_true_bounds. }
  split; [lia|]. intros i Hi. apply Hmask. lia.
Qed.

Lemma find_count_exists c log e :
  e ∈ log → sc_count e = c →
  ∃ e', find_count c log = Some e' ∧ e' ∈ log ∧ sc_count e' = c.
Proof.
  induction log as [|e0 log IH]; intros Hin Hc.
  - by apply elem_of_nil in Hin.
  - simpl. case_bool_decide as Hc0.
    + exists e0. split; [done|]. split; [apply elem_of_cons; by left | done].
    + apply elem_of_cons in Hin as [->|Hin]; [done|].
      destruct (IH Hin Hc) as (e' & ? & ? & ?). exists e'.
      split; [done|]. split; [apply elem_of_cons; by right | done].
Qed.

(** The best record after the trials: that of a scored trial of greatest
    count, or the record the loop started with when no count is
    positive. *)
Lemma run_trials_record g k st0 st :
  ransac_init xmalloc_ok n modeldim g = Ok st0 →
  some_trials k st0 = Ok st →
  ∃ log,
    Forall sound log ∧
    (∀ e, e ∈ log → sc_count e ≤ best_ninliers st) ∧
    ((0 < best_ninliers st ∧
      ∃ e, e ∈ log ∧ sc_count e = best_ninliers st ∧ holds n modeldim st e) ∨
     (best_ninliers st = 0 ∧
      best_model st = replicate (Z.to_nat modeldim) None ∧
      best_mask st = replicate (Z.to_nat n) None)).
Proof.
  intros Hinit Hrun. apply ransac_init_Ok_inv in Hinit as (_ & _ & Hst0).
  destruct (run_trials_select mev mgen macc rand data datadim n modeldim nfit
              max_error usr st0 k st0 (0, None) st)
    as (log & Hlog & Hstep); [by rewrite Hst0 | done |].
  rewrite select_spec in Hstep. destruct Hstep as (Hbest & _ & _ & Hcur).
  simpl in Hbest, Hcur. rewrite Hst0 in Hlog. simpl in Hlog.
  exists log. split; [by eapply scored_trials_sound|]. split.
  { intros e He. rewrite Hbest. by apply max_from_upper. }
  pose proof (max_from_ge 0 log) as Hge. rewrite <- Hbest in *.
  case_bool_decide as Hpos.
  - left. split; [lia|].
    destruct (max_from_attained 0 log) as [Hz|(e & Hin & He)]; [lia|].
    rewrite <- Hbest in He.
    destruct (find_count_exists _ _ _ Hin He) as (e' & Hfind & Hin' & He').
    rewrite Hfind in Hcur. by exists e'.
  - right. split; [lia|]. destruct Hcur as [-> ->]. by rewrite Hst0.
Qed.

End SearchAlone.

Lemma count_true_none (n : Z) (mask : list (cell bool)) :
  (∀ i, 0 ≤ i < n → mask !! Z.to_nat i = Some (Some false)) →
  count_true n mask = 0.
Proof.
  intros Hmask. unfold count_true.
  assert (Forall (λ c, c ≠ Some true) (take (Z.to_nat n) mask)) as Hall.
  { apply Forall_lookup. intros i c Hc.
    apply lookup_take_Some in Hc as [Hc Hi].
    specialize (Hmask (Z.of_nat i) ltac:(lia)).
    rewrite Nat2Z.id in Hmask. by simplify_eq. }
  induction Hall as [|c l Hc Hl IH]; [done|].
  by rewrite (filter_cons_False (λ c, c = Some true)).
Qed.

Lemma overwrite_same_prefix {A : Type} (len : Z) (src src' dst : list A) :
  take (Z.to_nat len) src = take (Z.to_nat len) src' →
  overwrite len src dst = overwrite len src' dst.
Proof. unfold overwrite. by intros ->. Qed.

(** ** What the search returns *)

Section SearchResults.

Context {U : Type}.
Variable mev : list (cell float) → list float → Z → U → float.
Variable mgen : list (cell float) → list float → U → list (cell float).
Variable macc : option (list (cell float) → U → bool).
Variable rand : nat → Z.
Variable xmalloc_ok : Z → bool.
Variable m : memory.
Variables datadim n modeldim nfit ntrials min_inliers : Z.
Variable max_error : float.
Variable usr : U.

Lemma ransac_init_Ok g :
  0 ≤ modeldim → xmalloc_ok (n * sizeof_bool) = true →
  ransac_init xmalloc_ok n modeldim g =
  Ok (TrialState g 0 (replicate (Z.to_nat modeldim) None)
        (replicate (Z.to_nat n) None) (replicate (Z.to_nat n) None)).
Proof.
  intros Hm Halloc. unfold ransac_init, xmalloc_mask.
  rewrite vla_Ok by done. by rewrite Halloc.
Qed.

(** A search that returns has gone through its three parts. *)
Lemma ransac_Ok_inv r m' :
  ransac mev mgen macc rand xmalloc_ok m datadim n modeldim nfit ntrials
    min_inliers max_error usr = Ok (r, m') →
  ∃ st0 st,
    ransac_init xmalloc_ok n modeldim (m_rand m) = Ok st0 ∧
    run_trials mev mgen macc rand (m_data m) datadim n modeldim nfit
      max_error usr (Z.to_nat ntrials) st0 = Ok st ∧
    ransac_finish n modeldim min_inliers m st = Ok (r, m').
Proof.
  rewrite ransac_eq. intros Hrun. res_inv Hrun. res_inv Hrun. eauto.
Qed.

(** A positive result comes with the record of a scored trial. *)
Lemma ransac_positive_inv r m' :
  ransac mev mgen macc rand xmalloc_ok m datadim n modeldim nfit ntrials
    min_inliers max_error usr = Ok (r, m') → 0 < r →
  ∃ e,
    scored_sound mev mgen macc rand (m_data m) datadim n modeldim nfit
      max_error usr e ∧
    sc_count e = r ∧ min_inliers ≤ r ∧
    m_out_model m' = overwrite modeldim (sc_model e) <$> m_out_model m ∧
    m_out_mask m' = overwrite n (sc_mask e) <$> m_out_mask m.
Proof.
  intros Hrun Hpos.
  apply ransac_Ok_inv in Hrun as (st0 & st & Hinit & Htrials & Hfinish).
  apply ransac_finish_Ok_inv in Hfinish as (_ & _ & Hlt & Hge).
  destruct (decide (best_ninliers st < min_inliers)) as [Hc|Hc].
  { destruct (Hlt Hc) as (-> & _). lia. }
  destruct Hge as (-> & -> & ->); [lia|].
  destruct (run_trials_record _ _ _ _ _ _ _ _ _ _ _ _ _ _ _ _ Hinit Htrials)
    as (log & Hsound & _ & [(_ & e & Hin & He & Hm & Hk)|(Hz & _)]); [|lia].
  exists e. rewrite Forall_forall in Hsound.
  split; [by apply Hsound|]. split; [done|]. split; [lia|].
  split.
  - destruct (m_out_model m); simpl; [|done].
    f_equal. by apply overwrite_same_prefix.
  - destruct (m_out_mask m); simpl; [|done].
    f_equal. by apply overwrite_same_prefix.
Qed.

(** X8.  When [ransac] returns a positive count, the model it has copied
    into the output buffer was generated by [mgen] from a sample of [nfit]
    pairwise distinct data points, and was not rejected by the acceptance
    predicate. *)
Theorem ransac_returns_generated_model r m' :
  ransac mev mgen macc rand xmalloc_ok m datadim n modeldim nfit ntrials
    min_inliers max_error usr = Ok (r, m') → 0 < r →
  ∃ indices x,
    length indices = Z.to_nat nfit ∧ NoDup indices ∧
    Forall (λ i, 0 ≤ i < n) indices ∧
    (∀ j k, 0 ≤ j < nfit → 0 ≤ k < datadim →
       gathered (m_data m) datadim indices x j k) ∧
    rejected macc usr (mgen (replicate (Z.to_nat modeldim) None) x usr) =
      false ∧
    m_out_model m' =
      overwrite modeldim (mgen (replicate (Z.to_nat modeldim) None) x usr)
        <$> m_out_model m.
Proof.
  intros Hrun Hpos.
  destruct (ransac_positive_inv r m' Hrun Hpos)
    as (e & (g & tmp & indices & x & g' & Hsample & Hmodel & Hrej & _)
          & _ & _ & Hout & _).
  apply draw_sample_Ok_inv in Hsample
    as (_ & Hlen & (g0 & _ & _ & Hnd & Hidx) & Hrange & Hx).
  exists indices, x. rewrite <- Hmodel.
  split; [done|]. split; [by rewrite Hidx, sort_ints_Permutation|].
  by repeat split.
Qed.

(** X9.  When [ransac] returns a positive count, the mask it has written
    into the output buffer is the inlier mask of the model it returns:
    entry [i] tells whether the error of point [i] under that model is
    below [max_error], and the count returned is the number of [true]
    entries among the [n]. *)
Theorem ransac_returns_inlier_mask r m' :
  ransac mev mgen macc rand xmalloc_ok m datadim n modeldim nfit ntrials
    min_inliers max_error usr = Ok (r, m') → 0 < r →
  ∃ model,
    m_out_model m' = overwrite modeldim model <$> m_out_model m ∧
    ∀ buf', m_out_mask m' = Some buf' →
      count_true n buf' = r ∧
      ∀ i, 0 ≤ i < n →
        buf' !! Z.to_nat i =
        Some (Some (SFltb (mev model (m_data m) (i * datadim) usr) max_error)).
Proof.
  intros Hrun Hpos.
  destruct (ransac_positive_inv r m' Hrun Hpos)
    as (e & Hsound & Hr & _ & Hmodel & Hmask).
  apply sound_count in Hsound as (Hcount & _ & Hlen & Hentries).
  exists (sc_model e). split; [done|]. intros buf' Hbuf'.
  rewrite Hmask in Hbuf'. destruct (m_out_mask m) as [buf|]; [|done].
  simpl in Hbuf'. simplify_eq.
  assert (length (take (Z.to_nat n) (sc_mask e)) = Z.to_nat n) as Htake.
  { rewrite length_take. lia. }
  split.
  - rewrite Hcount. unfold count_true, overwrite.
    by rewrite take_app_length'.
  - intros i Hi. unfold overwrite. rewrite lookup_app_l by lia.
    rewrite lookup_take_lt by lia. by apply Hentries.
Qed.

Lemma ransac_result_range_aux r m' :
  ransac mev mgen macc rand xmalloc_ok m datadim n modeldim nfit ntrials
    min_inliers max_error usr = Ok (r, m') → 0 ≤ r.
Proof.
  intros Hrun.
  apply ransac_Ok_inv in Hrun as (st0 & st & Hinit & Htrials & Hfinish).
  apply ransac_finish_Ok_inv in Hfinish as (_ & _ & Hlt & Hge).
  destruct (decide (best_ninliers st < min_inliers)) as [Hc|Hc].
  { destruct (Hlt Hc) as (-> & _). lia. }
  destruct Hge as (-> & _); [lia|].
  destruct (run_trials_record _ _ _ _ _ _ _ _ _ _ _ _ _ _ _ _ Hinit Htrials)
    as (_ & _ & _ & [(? & _)|(? & _)]); lia.
Qed.

(** X10.  What [ransac] returns is [0], or a count that is at least [1],
    at least [min_inliers] and at most the number of data points. *)
Theorem ransac_result_range r m' :
  ransac mev mgen macc rand xmalloc_ok m datadim n modeldim nfit ntrials
    min_inliers max_error usr = Ok (r, m') →
  r = 0 ∨ (1 ≤ r ∧ min_inliers ≤ r ∧ r ≤ n).
Proof.
  intros Hrun. destruct (decide (r ≤ 0)) as [Hle|Hpos].
  - left. pose proof Hrun as Hinv.
    apply ransac_Ok_inv in Hinv as (st0 & st & Hinit & Htrials & Hfinish).
    apply ransac_finish_Ok_inv in Hfinish as (_ & _ & Hlt & Hge).
    destruct (decide (best_ninliers st < min_inliers)) as [Hc|Hc].
    { by destruct (Hlt Hc). }
    destruct Hge as (-> & _); [lia|].
    destruct (run_trials_record _ _ _ _ _ _ _ _ _ _ _ _ _ _ _ _ Hinit Htrials)
      as (_ & _ & _ & [(? & _)|(? & _)]); lia.
  - right.
    destruct (ransac_positive_inv r m' Hrun ltac:(lia))
      as (e & Hsound & Hr & Hmin & _).
    apply sound_count in Hsound as (_ & Hbounds & _). lia.
Qed.

(** X11.  With [min_inliers] at most [0], a search in which no trial
    finds an inlier returns [0] like a failed one, and yet it has
    overwritten the model and the mask of the caller with the cells of its
    best record, which were never written. *)
Theorem ransac_zero_overwrites m' :
  ransac mev mgen macc rand xmalloc_ok m datadim n modeldim nfit ntrials
    min_inliers max_error usr = Ok (0, m') → min_inliers ≤ 0 →
  m_out_model m' =
    overwrite modeldim (replicate (Z.to_nat modeldim) None) <$> m_out_model m ∧
  m_out_mask m' =
    overwrite n (replicate (Z.to_nat n) None) <$> m_out_mask m.
Proof.
  intros Hrun Hmin.
  apply ransac_Ok_inv in Hrun as (st0 & st & Hinit & Htrials & Hfinish).
  apply ransac_finish_Ok_inv in Hfinish as (_ & _ & _ & Hge).
  destruct (run_trials_record _ _ _ _ _ _ _ _ _ _ _ _ _ _ _ _ Hinit Htrials)
    as (_ & _ & _ & [(Hpos & _)|(Hz & Hm & Hk)]).
  - destruct Hge as (Hr & _); lia.
  - destruct Hge as (_ & -> & ->); [lia|]. by rewrite Hm, Hk.
Qed.

(** X12.  When no point is ever within [max_error] of any model, every
    search that returns returns [0]. *)
Theorem ransac_no_inliers r m' :
  (∀ model off, SFltb (mev model (m_data m) off usr) max_error = false) →
  ransac mev mgen macc rand xmalloc_ok m datadim n modeldim nfit ntrials
    min_inliers max_error usr = Ok (r, m') → r = 0.
Proof.
  intros Hnone Hrun. destruct (decide (0 < r)) as [Hpos|Hle].
  - destruct (ransac_positive_inv r m' Hrun Hpos)
      as (e & Hsound & Hr & _).
    apply sound_count in Hsound as (Hcount & _ & _ & Hentries).
    rewrite <- Hr, Hcount. apply count_true_none.
    intros i Hi. by rewrite Hentries, Hnone.
  - pose proof (ransac_result_range_aux r m' Hrun). lia.
Qed.


(** X14.  With fewer data points than a sample needs, a search with at
    least one trial stops in its first trial, the sampler having given
    up, whatever the generator draws. *)
Theorem ransac_too_few_points :
  1 ≤ n ≤ INT_MAX → n < nfit → 1 ≤ ntrials → 0 ≤ modeldim →
  xmalloc_ok (n * sizeof_bool) = true → rand_nonneg rand →
  ransac mev mgen macc rand xmalloc_ok m datadim n modeldim nfit ntrials
    min_inliers max_error usr = Err (Fatal "could not generate any model").
Proof.
  intros Hn Hnfit Hntrials Hm Halloc Hr.
  assert (bounds_ok 0 n) as Hab by (unfold bounds_ok, INT_MIN; lia).
  assert (∀ st,
            trial mev mgen macc rand (m_data m) datadim n modeldim nfit
              max_error usr st =
            Err (Fatal "could not generate any model")) as Htrial.
  { intros st. unfold trial, draw_sample. rewrite (vla_Ok nfit) by lia.
    rewrite bind_Ok, fill_random_indices_spec
      by (done || rewrite length_replicate; lia).
    by rewrite first_distinct_batch_pigeonhole by (done || lia). }
  unfold ransac. rewrite ransac_init_Ok, bind_Ok by done. unfold for_loop.
  destruct (Z.to_nat (ntrials - 0)) as [|k] eqn:Hk; [lia|].
  simpl. by rewrite Htrial.
Qed.

(** X15.  With no trial to run and a positive [min_inliers], [ransac]
    returns [0] at once: it makes no call of [rand()] and leaves the
    memory of the caller as it was. *)
Theorem ransac_no_trials :
  ntrials ≤ 0 → 0 < min_inliers → 0 ≤ modeldim →
  xmalloc_ok (n * sizeof_bool) = true →
  ransac mev mgen macc rand xmalloc_ok m datadim n modeldim nfit ntrials
    min_inliers max_error usr = Ok (0, m).
Proof.
  intros Hntrials Hmin Hm Halloc.
  unfold ransac. rewrite ransac_init_Ok, bind_Ok by done.
  rewrite for_loop_empty, bind_Ok by lia.
  unfold ransac_finish. simpl.
  rewrite bool_decide_eq_false_2 by lia. by destruct m.
Qed.

End SearchResults.

Lemma ransac_returns_generated_model_witness :
  ransac ex_mev ex_mgen None ex_rand_id ex_xmalloc_ok ex_memory 1 4 1 2 3 1
    ex_f2 () =
    Ok (2, Memory ex_data (Some [Some true; Some false; Some false; Some true])
             (Some [Some ex_f1]) 6%nat) ∧
  ∃ (indices : list Z) (x : list float),
    length indices = Z.to_nat 2 ∧ NoDup indices ∧
    Some [Some ex_f1] =
    overwrite 1 (ex_mgen (replicate (Z.to_nat 1) None) x ()) <$>
      m_out_model ex_memory.
Proof.
  split; [reflexivity|].
  destruct (ransac_returns_generated_model ex_mev ex_mgen None ex_rand_id
              ex_xmalloc_ok ex_memory 1 4 1 2 3 1 ex_f2 () 2
              (Memory ex_data
                 (Some [Some true; Some false; Some false; Some true])
                 (Some [Some ex_f1]) 6%nat) eq_refl ltac:(lia))
    as (indices & x & Hlen & Hnd & _ & _ & _ & Hout).
  exists indices, x. split; [exact Hlen|]. split; [exact Hnd | exact Hout].
Defined.

Lemma ransac_returns_inlier_mask_witness :
  count_true 4 [Some true; Some false; Some false; Some true] = 2.
Proof.
  destruct (ransac_returns_inlier_mask ex_mev ex_mgen None ex_rand_id
              ex_xmalloc_ok ex_memory 1 4 1 2 3 1 ex_f2 () 2
              (Memory ex_data
                 (Some [Some true; Some false; Some false; Some true])
                 (Some [Some ex_f1]) 6%nat) eq_refl ltac:(lia))
    as (model & _ & Hmask).
  exact (proj1 (Hmask [Some true; Some false; Some false; Some true] eq_refl)).
Defined.

Lemma ransac_result_range_witness :
  2 = 0 ∨ (1 ≤ 2 ∧ 1 ≤ 2 ∧ 2 ≤ 4).
Proof.
  apply (ransac_result_range ex_mev ex_mgen None ex_rand_id ex_xmalloc_ok
           ex_memory 1 4 1 2 3 1 ex_f2 () 2
           (Memory ex_data
              (Some [Some true; Some false; Some false; Some true])
              (Some [Some ex_f1]) 6%nat)).
  reflexivity.
Defined.

Lemma ransac_zero_overwrites_witness :
  ransac ex_mev ex_mgen None ex_rand_id ex_xmalloc_ok ex_memory_full 1 4 1 2 3
    0 ex_f1 () =
    Ok (0, Memory ex_data (Some [None; None; None; None]) (Some [None])
             6%nat) ∧
  Some [None] =
    overwrite 1 (replicate (Z.to_nat 1) None) <$> m_out_model ex_memory_full.
Proof.
  split; [reflexivity|].
  apply (ransac_zero_overwrites ex_mev ex_mgen None ex_rand_id ex_xmalloc_ok
           ex_memory_full 1 4 1 2 3 0 ex_f1 ()
           (Memory ex_data (Some [None; None; None; None]) (Some [None])
              6%nat)).
  - reflexivity.
  - lia.
Defined.

Lemma ransac_no_inliers_witness :
  ransac ex_mev ex_mgen None ex_rand_id ex_xmalloc_ok ex_memory_full 1 4 1 2 3
    1 ex_f1 () = Ok (0, Memory (m_data ex_memory_full)
                          (m_out_mask ex_memory_full)
                          (m_out_model ex_memory_full) 6%nat) ∧
  0 = 0.
Proof.
  split; [reflexivity|].
  apply (ransac_no_inliers ex_mev ex_mgen None ex_rand_id ex_xmalloc_ok
           ex_memory_full 1 4 1 2 3 1 ex_f1 () 0
           (Memory (m_data ex_memory_full) (m_out_mask ex_memory_full)
              (m_out_model ex_memory_full) 6%nat)).
  - intros model off. unfold ex_mev. simpl.
    destruct (Z.to_nat off) as [|[|[|[|k]]]]; reflexivity.
  - reflexivity.
Defined.


Lemma ransac_too_few_points_witness :
  ransac ex_mev ex_mgen None ex_rand_id ex_xmalloc_ok ex_memory_full 1 1 1 2 3
    1 ex_f2 () = Err (Fatal "could not generate any model").
Proof.
  apply (ransac_too_few_points ex_mev ex_mgen None ex_rand_id ex_xmalloc_ok
           ex_memory_full 1 1 1 2 3 1 ex_f2 ()).
  - unfold INT_MAX. lia.
  - lia.
  - lia.
  - lia.
  - reflexivity.
  - intros k. unfold ex_rand_id. lia.
Defined.

Lemma ransac_no_trials_witness :
  ransac ex_mev ex_mgen None ex_rand_id ex_xmalloc_ok ex_memory_full 1 4 1 2 0
    1 ex_f2 () = Ok (0, ex_memory_full).
Proof.
  apply (ransac_no_trials ex_mev ex_mgen None ex_rand_id ex_xmalloc_ok
           ex_memory_full 1 4 1 2 0 1 ex_f2 ()).
  - lia.
  - lia.
  - lia.
  - reflexivity.
Defined.

(** ** Errors and thresholds that are not ordinary numbers *)

Lemma SFleb_zero_nan : SFleb float_zero S754_nan = false.
Proof. reflexivity. Qed.

Lemma SFltb_nonpositive_threshold (e t : float) :
  SFleb float_zero e = true → SFltb float_zero t = false →
  SFltb e t = false.
Proof. by destruct e as [s|[]| |[] me ee], t as [s'|[]| |[] mt et]. Qed.

Section OddFloats.

Context {U : Type}.
Variable mev : list (cell float) → list float → Z → U → float.
Variable data : list float.
Variable model : list (cell float).
Variable max_error : float.
Variable datadim : Z.
Variable usr : U.

(** X16.  An error that is not a number does not pass [e >= 0]: with room
    in the mask, one point whose error is NaN stops [ransac_trial] at the
    assertion. *)
Theorem ransac_trial_nan_stops out_mask n i :
  n ≤ Z.of_nat (length out_mask) → 0 ≤ i < n →
  mev model data (i * datadim) usr = S754_nan →
  ransac_trial mev out_mask data model max_error datadim n usr =
  Err (AssertFailed "e >= 0").
Proof.
  intros Hlen Hi Hnan. apply ransac_trial_stops; [done|].
  exists i. split; [done|]. unfold point_error. by rewrite Hnan.
Qed.

(** X17.  A threshold that is not positive (zero, negative or NaN) admits
    no inlier: whenever [ransac_trial] returns, the count is [0] and the
    [n] entries it wrote are all [false]. *)
Theorem ransac_trial_nonpositive_threshold out_mask n mask cx :
  SFltb float_zero max_error = false →
  ransac_trial mev out_mask data model max_error datadim n usr = Ok (mask, cx) →
  cx = 0 ∧ ∀ i, 0 ≤ i < n → mask !! Z.to_nat i = Some (Some false).
Proof.
  intros Hmax Hrun. apply ransac_trial_scored in Hrun
    as (_ & Hcx & Hmask & _ & Hpos & _). simpl in *.
  assert (∀ i, 0 ≤ i < Z.max 0 n →
            mask !! Z.to_nat i = Some (Some false)) as Hfalse.
  { intros i Hi. rewrite Hmask by done. unfold inlier.
    by rewrite (SFltb_nonpositive_threshold _ _ (Hpos i Hi) Hmax). }
  split.
  - rewrite Hcx. by apply count_true_none.
  - intros i Hi. apply Hfalse. lia.
Qed.

End OddFloats.

Lemma ransac_trial_nan_stops_witness :
  ransac_trial ex_mev [None; None] [ex_f1; S754_nan] [] ex_f2 1 2 () =
  Err (AssertFailed "e >= 0").
Proof.
  apply (ransac_trial_nan_stops ex_mev [ex_f1; S754_nan] [] ex_f2 1 ()
           [None; None] 2 1).
  - simpl. lia.
  - lia.
  - reflexivity.
Defined.

Lemma ransac_trial_nonpositive_threshold_witness :
  ransac_trial ex_mev [None; None; None; None] ex_data [] ex_neg1 1 4 () =
    Ok ([Some false; Some false; Some false; Some false], 0) ∧
  0 = 0 ∧
  ∀ i, 0 ≤ i < 4 →
    [Some false; Some false; Some false; Some false] !! Z.to_nat i =
    Some (Some false).
Proof.
  split; [reflexivity|].
  apply (ransac_trial_nonpositive_threshold ex_mev ex_data [] ex_neg1 1 ()
           [None; None; None; None] 4
           [Some false; Some false; Some false; Some false] 0).
  - reflexivity.
  - reflexivity.
Defined.

(** ** The output buffers *)

Lemma copy_out_frame {A : Type} (len : Z) (src : list A)
    (dst dst' : option (list A)) :
  copy_out len src dst = Ok dst' →
  match dst, dst' with
  | Some buf, Some buf' =>
      length buf' = length buf ∧
      drop (Z.to_nat len) buf' = drop (Z.to_nat len) buf
  | None, None => True
  | _, _ => False
  end.
Proof.
  destruct dst as [buf|]; simpl; intros Hrun; [|by simplify_eq].
  res_inv Hrun. simplify_eq.
  match goal with
  | H : copy_cells _ _ _ = Ok _ |- _ =>
      apply copy_cells_Ok_inv in H as (-> & Hsrc & Hdst)
  end.
  split; [by apply overwrite_length|]. unfold overwrite.
  rewrite drop_app_length'; [done|]. rewrite length_take. lia.
Qed.

(** X18.  [ransac] writes at most the first [modeldim] cells of the model
    buffer and the first [n] cells of the mask buffer: a buffer that is
    there keeps its length and its cells from there on, and a buffer that
    is not there (a null pointer) stays so. *)
Theorem ransac_output_frame {U : Type}
    (mev : list (cell float) → list float → Z → U → float)
    (mgen : list (cell float) → list float → U → list (cell float))
    (macc : option (list (cell float) → U → bool)) (rand : nat → Z)
    (xmalloc_ok : Z → bool) (m : memory)
    (datadim n modeldim nfit ntrials min_inliers : Z) (max_error : float)
    (usr : U) (r : Z) (m' : memory) :
  ransac mev mgen macc rand xmalloc_ok m datadim n modeldim nfit ntrials
    min_inliers max_error usr = Ok (r, m') →
  match m_out_model m, m_out_model m' with
  | Some buf, Some buf' =>
      length buf' = length buf ∧
      drop (Z.to_nat modeldim) buf' = drop (Z.to_nat modeldim) buf
  | None, None => True
  | _, _ => False
  end ∧
  match m_out_mask m, m_out_mask m' with
  | Some buf, Some buf' =>
      length buf' = length buf ∧
      drop (Z.to_nat n) buf' = drop (Z.to_nat n) buf
  | None, None => True
  | _, _ => False
  end.
Proof.
  intros Hrun. apply ransac_Ok_inv in Hrun as (st0 & st & _ & _ & Hfinish).
  unfold ransac_finish in Hfinish. case_bool_decide.
  - res_inv Hfinish. res_inv Hfinish. simplify_eq. simpl.
    split; by eapply copy_out_frame.
  - simplify_eq. simpl.
    split; [by destruct (m_out_model m) | by destruct (m_out_mask m)].
Qed.

Lemma ransac_output_frame_witness :
  length [Some ex_f1; Some ex_f4] = length [Some ex_f2; Some ex_f4] ∧
  drop (Z.to_nat 1) [Some ex_f1; Some ex_f4] =
    drop (Z.to_nat 1) [Some ex_f2; Some ex_f4].
Proof.
  apply (ransac_output_frame ex_mev ex_mgen None ex_rand_id ex_xmalloc_ok
           (Memory ex_data None (Some [Some ex_f2; Some ex_f4]) 0%nat)
           1 4 1 2 3 1 ex_f2 () 2
           (Memory ex_data None (Some [Some ex_f1; Some ex_f4]) 6%nat)).
  reflexivity.
Defined.
